(** * The calculator engine of [calculator/script.js]

    A shallow embedding of the calculator's input/state machine.  JavaScript
    numbers are IEEE-754 binary64 values, modelled with the executable
    specification of floating-point arithmetic of the standard library
    ([SpecFloat], precision 53, [emax] 1024, round to nearest even); strings
    are sequences of ASCII characters.  The global [calculatorState] object
    becomes a record threaded through every operation. *)

From Stdlib Require Import NArith ZArith Bool List String Ascii Lia.
From Stdlib Require Import Floats.SpecFloat.
Import ListNotations.
Local Open Scope string_scope.
Local Open Scope Z_scope.

(** ** JavaScript numbers and their conversions from and to strings *)

Module JSNumber.

Definition prec : Z := 53.
Definition emax : Z := 1024.
Definition number : Type := spec_float.

(** The Number value of a mathematical integer (round to nearest even). *)
Definition ofZ (z : Z) : number := binary_normalize prec emax z 0 false.

Definition add : number -> number -> number := SFadd prec emax.
Definition sub : number -> number -> number := SFsub prec emax.
Definition mul : number -> number -> number := SFmul prec emax.
Definition div : number -> number -> number := SFdiv prec emax.

(** [a === b] on numbers: [NaN] differs from everything, [+0 === -0]. *)
Definition strict_eq : number -> number -> bool := SFeqb.

Definition NaN : number := S754_nan.
Definition zero : number := S754_zero false.

(** [Number.EPSILON] is 2^-52 and the literal [1e12] is exactly 10^12. *)
Definition EPSILON : number :=
  Eval vm_compute in SFldexp prec emax (ofZ 1) (-52).
Definition ten12 : number := Eval vm_compute in ofZ (10 ^ 12).

(** [Number.isFinite]. *)
Definition isFinite (x : number) : bool :=
  match x with
  | S754_zero _ | S754_finite _ _ _ => true
  | S754_infinity _ | S754_nan => false
  end.

(** [Math.round]: the integer nearest to [x], ties towards +infinity, that is
    floor(x + 1/2) computed exactly; a zero result keeps the sign of [x]. *)
Definition round (x : number) : number :=
  match x with
  | S754_finite s m e =>
      if 0 <=? e then x
      else binary_normalize prec emax
             (Z.shiftr (2 * cond_Zopp s (Zpos m) + 2 ^ (- e)) (1 - e)) 0 s
  | _ => x
  end.

(** The Number value of the decimal [(-1)^s * m * 10^e]: one correctly
    rounded conversion of the exact rational. *)
Definition of_decimal (s : bool) (m : positive) (e : Z) : number :=
  if 0 <=? e then binary_round prec emax s (m * Z.to_pos (10 ^ e)) 0
  else SFdiv prec emax (S754_finite s m 0)
                       (S754_finite false (Z.to_pos (10 ^ (- e))) 0).

(** *** [Number(string)]: the StringNumericLiteral grammar *)

Definition is_digit (c : ascii) : bool :=
  (48 <=? nat_of_ascii c)%nat && (nat_of_ascii c <=? 57)%nat.

Definition digit_val (c : ascii) : Z := Z.of_nat (nat_of_ascii c) - 48.

Fixpoint span_digits (s : string) : string * string :=
  match s with
  | String c r =>
      if is_digit c then let '(d, t) := span_digits r in (String c d, t)
      else (EmptyString, s)
  | EmptyString => (EmptyString, EmptyString)
  end.

Fixpoint digits_value (acc : Z) (s : string) : Z :=
  match s with
  | String c r => digits_value (10 * acc + digit_val c) r
  | EmptyString => acc
  end.

(** An optional ExponentPart that must reach the end of the string. *)
Definition parse_exponent (s : string) : option Z :=
  match s with
  | EmptyString => Some 0
  | String c r =>
      if (c =? "e")%char || (c =? "E")%char then
        let '(neg, r') :=
          match r with
          | String "-" t => (true, t)
          | String "+" t => (false, t)
          | _ => (false, r)
          end in
        match span_digits r' with
        | (String _ _ as d, EmptyString) =>
            Some (if neg : bool then - digits_value 0 d else digits_value 0 d)
        | _ => None
        end
      else None
  end.

(** StrUnsignedDecimalLiteral: [Infinity], or digits with an optional
    fraction and exponent, at least one digit around the point. *)
Definition parse_unsigned (neg : bool) (s : string) : number :=
  if (s =? "Infinity")%string then S754_infinity neg
  else
    let '(ip, r1) := span_digits s in
    let '(fp, r2) :=
      match r1 with
      | String "." t => span_digits t
      | _ => (EmptyString, r1)
      end in
    match (String.length ip + String.length fp)%nat, parse_exponent r2 with
    | S _, Some ex =>
        match digits_value 0 (ip ++ fp) with
        | Zpos m => of_decimal neg m (ex - Z.of_nat (String.length fp))
        | _ => S754_zero neg
        end
    | _, _ => NaN
    end.

(** StrWhiteSpaceChar, as far as ASCII goes: tab, line feed, vertical tab,
    form feed, carriage return and space. *)
Definition is_space (c : ascii) : bool :=
  let n := nat_of_ascii c in ((9 <=? n) && (n <=? 13) || (n =? 32))%nat.

Fixpoint trim_start (s : string) : string :=
  match s with
  | String c r => if is_space c then trim_start r else s
  | EmptyString => EmptyString
  end.

Fixpoint trim_end (s : string) : string :=
  match s with
  | String c r =>
      match trim_end r with
      | EmptyString => if is_space c then EmptyString else String c EmptyString
      | r' => String c r'
      end
  | EmptyString => EmptyString
  end.

Definition radix_digit (c : ascii) : option Z :=
  let n := nat_of_ascii c in
  if ((48 <=? n) && (n <=? 57))%nat then Some (Z.of_nat n - 48)
  else if ((97 <=? n) && (n <=? 102))%nat then Some (Z.of_nat n - 87)
  else if ((65 <=? n) && (n <=? 70))%nat then Some (Z.of_nat n - 55)
  else None.

Fixpoint radix_value (b : Z) (acc : Z) (s : string) : option Z :=
  match s with
  | EmptyString => Some acc
  | String c r =>
      match radix_digit c with
      | Some d => if d <? b then radix_value b (b * acc + d) r else None
      | None => None
      end
  end.

(** NonDecimalIntegerLiteral: the digits after [0x], [0o] or [0b]. *)
Definition parse_radix (b : Z) (s : string) : number :=
  match s with
  | EmptyString => NaN
  | _ => match radix_value b 0 s with Some v => ofZ v | None => NaN end
  end.

Definition Number (s : string) : number :=
  match trim_end (trim_start s) with
  | EmptyString => zero
  | String "-" r => parse_unsigned true r
  | String "+" r => parse_unsigned false r
  | String "0" (String c r) as t =>
      if (c =? "x")%char || (c =? "X")%char then parse_radix 16 r
      else if (c =? "o")%char || (c =? "O")%char then parse_radix 8 r
      else if (c =? "b")%char || (c =? "B")%char then parse_radix 2 r
      else parse_unsigned false t
  | t => parse_unsigned false t
  end.

(** *** [String(number)]: Number::toString in radix 10 *)

Definition digit_char (d : Z) : ascii := ascii_of_nat (48 + Z.to_nat d).

(** The [k] low decimal digits of [s], most significant first. *)
Fixpoint digits_fixed (k : nat) (s : Z) : string :=
  match k with
  | O => EmptyString
  | S k' =>
      String (digit_char ((s / 10 ^ Z.of_nat k') mod 10)) (digits_fixed k' s)
  end.

Fixpoint count_digits (fuel : nat) (z : Z) : nat :=
  match fuel with
  | O => 1
  | S f => if z <? 10 then 1%nat else S (count_digits f (z / 10))
  end.

(** The decimal representation of a non-negative integer. *)
Definition decimal (z : Z) : string :=
  digits_fixed (count_digits (Z.to_nat (Z.log2 z)) z) z.

Fixpoint zeros (n : nat) : string :=
  match n with
  | O => EmptyString
  | S n' => String "0" (zeros n')
  end.

Fixpoint lead_zeros (fuel : nat) (p q : Z) : Z :=
  match fuel with
  | O => 0
  | S f => if q <=? 10 * p then 1 else 1 + lead_zeros f (10 * p) q
  end.

(** The integer [n] with 10^(n-1) <= p/q < 10^n, for a positive [p/q]. *)
Definition magnitude10 (p q : Z) : Z :=
  if q <=? p then Z.of_nat (count_digits (Z.to_nat (Z.log2 (p / q))) (p / q))
  else 1 - lead_zeros (S (Z.to_nat (Z.log2 q))) p q.

(** Does the decimal [s * 10^e10] denote the Number [x]? *)
Definition roundtrips (x : number) (s e10 : Z) : bool :=
  match s with
  | Zpos sp => SFeqb (of_decimal false sp e10) x
  | _ => false
  end.

Definition scaled (p q sc : Z) : Z * Z :=
  if 0 <=? sc then (p * 10 ^ sc, q) else (p, q * 10 ^ (- sc)).

(** The [k]-digit decimals next to [x = p/q] on both sides; of those that
    denote [x], the one closest to [x] (the even one on a tie). *)
Definition try_digits (x : number) (p q n0 k : Z) : option (Z * Z) :=
  let '(num, den) := scaled p q (k - n0) in
  let lo := num / den in
  let r := num mod den in
  let c_lo := (lo, n0) in
  let c_hi :=
    if lo + 1 <? 10 ^ k then (lo + 1, n0) else (10 ^ (k - 1), n0 + 1) in
  match roundtrips x lo (n0 - k), roundtrips x (fst c_hi) (snd c_hi - k) with
  | true, true =>
      Some match 2 * r ?= den with
           | Lt => c_lo
           | Gt => c_hi
           | Eq => if Z.even lo then c_lo else c_hi
           end
  | true, false => Some c_lo
  | false, true => Some c_hi
  | false, false => None
  end.

(** The least number of digits [k] (at most 17) that denotes [x]. *)
Fixpoint shortest (fuel : nat) (x : number) (p q n0 k : Z) : Z * Z * Z :=
  match fuel with
  | O => let '(num, den) := scaled p q (k - n0) in (num / den, n0, k)
  | S f =>
      match try_digits x p q n0 k with
      | Some (s, n) => (s, n, k)
      | None => shortest f x p q n0 (k + 1)
      end
  end.

(** The layout of the digits [s] (there are [k]) for the value
    [s * 10^(n-k)]: plain up to 21 integer digits and down to 10^-6,
    exponent notation beyond. *)
Definition format_digits (s n k : Z) : string :=
  let ds := digits_fixed (Z.to_nat k) s in
  if (k <=? n) && (n <=? 21) then ds ++ zeros (Z.to_nat (n - k))
  else if (0 <? n) && (n <=? 21) then
    substring 0 (Z.to_nat n) ds ++ "."
      ++ substring (Z.to_nat n) (Z.to_nat (k - n)) ds
  else if (-6 <? n) && (n <=? 0) then "0." ++ zeros (Z.to_nat (- n)) ++ ds
  else
    let e := n - 1 in
    let sign := if e <? 0 then "-" else "+" in
    match ds with
    | String c EmptyString => String c ("e" ++ sign ++ decimal (Z.abs e))
    | String c r => String c ("." ++ r ++ "e" ++ sign ++ decimal (Z.abs e))
    | EmptyString => EmptyString
    end.

Definition toString_pos (m : positive) (e : Z) : string :=
  let p := if 0 <=? e then Zpos m * 2 ^ e else Zpos m in
  let q := if 0 <=? e then 1 else 2 ^ (- e) in
  let '(s, n, k) :=
    shortest 17 (S754_finite false m e) p q (magnitude10 p q) 1 in
  format_digits s n k.

Definition toString (x : number) : string :=
  match x with
  | S754_nan => "NaN"
  | S754_zero _ => "0"
  | S754_infinity false => "Infinity"
  | S754_infinity true => "-Infinity"
  | S754_finite false m e => toString_pos m e
  | S754_finite true m e => "-" ++ toString_pos m e
  end.

End JSNumber.

(** ** The string methods the script uses *)

Module JSString.

(** [s.includes(sub)]. *)
Fixpoint includes (sub s : string) : bool :=
  prefix sub s ||
  match s with
  | String _ r => includes sub r
  | EmptyString => false
  end.

(** [s.startsWith(pre)]. *)
Definition startsWith (pre s : string) : bool := prefix pre s.

(** [s.slice(1)]. *)
Definition slice_1 (s : string) : string :=
  substring 1 (String.length s - 1) s.

(** [s.slice(0, -1)]. *)
Definition slice_0_m1 (s : string) : string :=
  substring 0 (String.length s - 1) s.

(** [parts.join(" ")]. *)
Fixpoint join (sep : string) (parts : list string) : string :=
  match parts with
  | [] => EmptyString
  | [p] => p
  | p :: ps => p ++ sep ++ join sep ps
  end.

End JSString.

(** ** The calculator state and its operations *)

Module Calculator.
Import JSNumber JSString.

Record CalculatorState : Type := mkState {
  firstOperand : option number;
  secondOperand : option number;
  operator : option string;
  currentInput : string;
  hasCalculated : bool;
  isError : bool
}.

(** The object literal the script starts from. *)
Definition calculatorState : CalculatorState :=
  {| firstOperand := None; secondOperand := None; operator := None;
     currentInput := "0"; hasCalculated := false; isError := false |}.

Definition set_currentInput (c : string) (s : CalculatorState) :=
  {| firstOperand := firstOperand s; secondOperand := secondOperand s;
     operator := operator s; currentInput := c;
     hasCalculated := hasCalculated s; isError := isError s |}.

Definition set_operator (o : string) (s : CalculatorState) :=
  {| firstOperand := firstOperand s; secondOperand := secondOperand s;
     operator := Some o; currentInput := currentInput s;
     hasCalculated := hasCalculated s; isError := isError s |}.

(** The five assignments both error branches make; [hasCalculated] is left
    as it is. *)
Definition enterError (s : CalculatorState) :=
  {| firstOperand := None; secondOperand := None; operator := None;
     currentInput := "Error"; hasCalculated := hasCalculated s;
     isError := true |}.

Definition checkErrorState (s : CalculatorState) : bool :=
  isError s || (currentInput s =? "Error")%string.

Definition formatDisplayNumber (n : number) : string :=
  if negb (isFinite n) then "Error"
  else toString (div (round (mul (add n EPSILON) ten12)) ten12).

Definition getCurrentInputAsNumber (s : CalculatorState) : number :=
  if (currentInput s =? ".")%string || (currentInput s =? "-.")%string
  then zero
  else Number (currentInput s).

Definition performCalculation (a : number) (op : string) (b : number)
  : number :=
  if (op =? "+")%string then add a b
  else if (op =? "-")%string then sub a b
  else if (op =? "*")%string then mul a b
  else if (op =? "/")%string then (if strict_eq b zero then NaN else div a b)
  else NaN.

(** Truthiness of [calculatorState.operator]: neither [null] nor empty. *)
Definition truthy (o : option string) : bool :=
  match o with
  | Some (String _ _) => true
  | _ => false
  end.

(** What [updateDisplay] writes to the page. *)
Record Display : Type := mkDisplay {
  expression : string;
  result : string;
  errorClass : bool
}.

Definition updateDisplay (s : CalculatorState) : Display :=
  let first :=
    match firstOperand s with
    | Some a => [formatDisplayNumber a]
    | None => []
    end in
  let op :=
    match operator s with
    | Some (String _ _ as o) => [o]
    | _ => []
    end in
  let second :=
    match secondOperand s with
    | Some b => if hasCalculated s then [] else [formatDisplayNumber b]
    | None => []
    end in
  {| expression := join " " (first ++ op ++ second)%list;
     result := currentInput s;
     errorClass := (currentInput s =? "Error")%string |}.

Definition resetStateForNewInput (s : CalculatorState) : CalculatorState :=
  if checkErrorState s || hasCalculated s then
    {| firstOperand := None; secondOperand := None; operator := None;
       currentInput := "0"; hasCalculated := false; isError := false |}
  else s.

Definition appendDigit (digit : string) (s0 : CalculatorState)
  : CalculatorState :=
  let s := resetStateForNewInput s0 in
  if (currentInput s =? "0")%string then set_currentInput digit s
  else if (currentInput s =? "-0")%string then
    set_currentInput ("-" ++ digit) s
  else set_currentInput (currentInput s ++ digit) s.

Definition addDecimalPoint (s0 : CalculatorState) : CalculatorState :=
  let s := resetStateForNewInput s0 in
  if negb (includes "." (currentInput s)) then
    set_currentInput (currentInput s ++ ".") s
  else s.

Definition toggleSign (s : CalculatorState) : CalculatorState :=
  if checkErrorState s then s
  else if (currentInput s =? "0")%string || (currentInput s =? "0.")%string
  then s
  else
    set_currentInput
      (if startsWith "-" (currentInput s) then slice_1 (currentInput s)
       else "-" ++ currentInput s) s.

Definition removeLastCharacter (s : CalculatorState) : CalculatorState :=
  if checkErrorState s then s
  else if hasCalculated s then s
  else
    let c := currentInput s in
    if (String.length c <=? 1)%nat
       || ((String.length c =? 2)%nat && startsWith "-" c)
    then set_currentInput "0" s
    else
      let c' := slice_0_m1 c in
      if (c' =? "-")%string then set_currentInput "0" s
      else set_currentInput c' s.

Definition clearCalculator (s : CalculatorState) : CalculatorState :=
  {| firstOperand := None; secondOperand := None; operator := None;
     currentInput := "0"; hasCalculated := false; isError := false |}.

Definition selectOperator (op : string) (s0 : CalculatorState)
  : CalculatorState :=
  if checkErrorState s0 then s0
  else
    let inputNumber := getCurrentInputAsNumber s0 in
    let s :=
      if hasCalculated s0 then
        {| firstOperand := firstOperand s0; secondOperand := None;
           operator := operator s0; currentInput := currentInput s0;
           hasCalculated := false; isError := isError s0 |}
      else s0 in
    match firstOperand s with
    | None =>
        {| firstOperand := Some inputNumber;
           secondOperand := secondOperand s;
           operator := Some op; currentInput := "0";
           hasCalculated := hasCalculated s; isError := isError s |}
    | Some a =>
        match operator s with
        | Some (String _ _ as o) =>
            if negb (currentInput s =? "0")%string then
              let result := performCalculation a o inputNumber in
              if negb (isFinite result) then enterError s
              else
                {| firstOperand := Some result; secondOperand := None;
                   operator := Some op; currentInput := "0";
                   hasCalculated := hasCalculated s; isError := isError s |}
            else set_operator op s
        | _ => set_operator op s
        end
    end.

Definition calculateResult (s : CalculatorState) : CalculatorState :=
  if checkErrorState s then s
  else
    match operator s, firstOperand s with
    | Some o, Some a =>
        let inputNumber := getCurrentInputAsNumber s in
        let second :=
          if hasCalculated s then
            match secondOperand s with
            | Some b => b
            | None => inputNumber
            end
          else inputNumber in
        let result := performCalculation a o second in
        if negb (isFinite result) then enterError s
        else
          {| firstOperand := Some result; secondOperand := Some second;
             operator := Some o;
             currentInput := formatDisplayNumber result;
             hasCalculated := true; isError := isError s |}
    | _, _ => s
    end.

(** *** The commands of the input adapter *)

(** What the handlers pass on: a digit key [0]-[9] to [appendDigit], one of
    the four operator keys to [selectOperator], and the five actions. *)
Inductive Digit : Type := D0 | D1 | D2 | D3 | D4 | D5 | D6 | D7 | D8 | D9.

Inductive Op : Type := Plus | Minus | Times | Divide.

Inductive Command : Type :=
  | Press (d : Digit)
  | DecimalPoint
  | Operator (op : Op)
  | Sign
  | Backspace
  | Clear
  | Equals.

Definition digitKey (d : Digit) : string :=
  match d with
  | D0 => "0" | D1 => "1" | D2 => "2" | D3 => "3" | D4 => "4"
  | D5 => "5" | D6 => "6" | D7 => "7" | D8 => "8" | D9 => "9"
  end.

Definition opKey (o : Op) : string :=
  match o with
  | Plus => "+" | Minus => "-" | Times => "*" | Divide => "/"
  end.

(** The click and keydown handlers: one engine operation per command. *)
Definition dispatch (c : Command) (s : CalculatorState) : CalculatorState :=
  match c with
  | Press d => appendDigit (digitKey d) s
  | DecimalPoint => addDecimalPoint s
  | Operator o => selectOperator (opKey o) s
  | Sign => toggleSign s
  | Backspace => removeLastCharacter s
  | Clear => clearCalculator s
  | Equals => calculateResult s
  end.

(** A session: the script ends with [clearCalculator()], then commands are
    handled one at a time. *)
Definition run (cs : list Command) : CalculatorState :=
  fold_left (fun s c => dispatch c s) cs (clearCalculator calculatorState).

Inductive reachable : CalculatorState -> Prop :=
  | reachable_init : reachable (clearCalculator calculatorState)
  | reachable_step (c : Command) (s : CalculatorState) :
      reachable s -> reachable (dispatch c s).

End Calculator.

(** ** Predicates used in the statements *)

Import JSNumber JSString Calculator.

(** The error state as the two error branches leave it. *)
Definition error_fields (s : CalculatorState) : Prop :=
  currentInput s = "Error" /\ isError s = true /\
  firstOperand s = None /\ secondOperand s = None /\ operator s = None.

(** The right-hand operand [calculateResult] uses. *)
Definition equalsOperand (s : CalculatorState) : number :=
  if hasCalculated s then
    match secondOperand s with
    | Some b => b
    | None => getCurrentInputAsNumber s
    end
  else getCurrentInputAsNumber s.

(** The grammar of the specification for [currentInput]: an optional leading
    ["-"], digits, an optional single ["."], digits. *)
Fixpoint digits_only (s : string) : bool :=
  match s with
  | EmptyString => true
  | String c r => is_digit c && digits_only r
  end.

Fixpoint int_then_frac (s : string) : bool :=
  match s with
  | EmptyString => true
  | String c r =>
      if is_digit c then int_then_frac r
      else (c =? ".")%char && digits_only r
  end.

Definition signed (P : string -> bool) (s : string) : bool :=
  match s with
  | String c r => if (c =? "-")%char then P r else P s
  | EmptyString => P s
  end.

Definition partial_number : string -> bool := signed int_then_frac.

(** The same grammar with at least one digit before the point: what typing
    produces. *)
Definition unsigned_number (s : string) : bool :=
  match s with
  | String c r => is_digit c && int_then_frac r
  | EmptyString => false
  end.

Definition entered_number : string -> bool := signed unsigned_number.

(** The text of a result after Equals: [String(x)] of a non-negative [x],
    with or without a leading ["-"]. *)
Definition result_text (c : string) : Prop :=
  exists x : number,
    c = toString (SFabs x) \/ c = String "-" (toString (SFabs x)).

(** Texts that start like a number: a digit, or the [I] of [Infinity] or the
    [N] of [NaN]. *)
Definition head_ok (c : string) : bool :=
  match c with
  | String a _ => is_digit a || (a =? "I")%char || (a =? "N")%char
  | EmptyString => false
  end.

(** Operator and first operand are set together, by one of the four keys. *)
Definition pending (f : option number) (o : option string) : Prop :=
  match f, o with
  | None, None => True
  | Some _, Some k => exists op, k = opKey op
  | _, _ => False
  end.

(** The shapes of the states a session goes through: the error state, a
    number being typed, and the post-equals state. *)
Inductive shape : CalculatorState -> Prop :=
  | shape_error (hc : bool) :
      shape {| firstOperand := None; secondOperand := None;
               operator := None; currentInput := "Error";
               hasCalculated := hc; isError := true |}
  | shape_entering (f : option number) (o : option string) (c : string) :
      entered_number c = true -> pending f o ->
      shape {| firstOperand := f; secondOperand := None; operator := o;
               currentInput := c; hasCalculated := false; isError := false |}
  | shape_result (a b : number) (op : Op) (c : string) :
      result_text c ->
      shape {| firstOperand := Some a; secondOperand := Some b;
               operator := Some (opKey op); currentInput := c;
               hasCalculated := true; isError := false |}.

(** The three kinds of text [currentInput] holds. *)
Definition input_text_ok (s : CalculatorState) : Prop :=
  currentInput s = "Error" \/
  (entered_number (currentInput s) = true /\
   partial_number (currentInput s) = true) \/
  (hasCalculated s = true /\ isError s = false /\
   exists x : number,
     currentInput s = toString x \/
     currentInput s = String "-" (toString x)).

(** The number of digits of the decimal representation of [n]. *)
Definition decimal_length (n : Z) : Z :=
  Z.of_nat (count_digits (Z.to_nat (Z.log2 n)) n).

(** The canonical binary64 representation of [v * 2^e], for a positive
    integer [v] of at most 53 bits. *)
Definition canon (v e : Z) : number :=
  S754_finite false (Z.to_pos (v * 2 ^ (53 - Zdigits2 v)))
    (e + Zdigits2 v - 53).





(** ** Typing numbers and running commands from a state *)

Definition digitZ (d : Digit) : Z :=
  match d with
  | D0 => 0 | D1 => 1 | D2 => 2 | D3 => 3 | D4 => 4
  | D5 => 5 | D6 => 6 | D7 => 7 | D8 => 8 | D9 => 9
  end.

(** The integer a sequence of digit keys denotes. *)
Definition digitsValue (ds : list Digit) : Z :=
  fold_left (fun v d => 10 * v + digitZ d) ds 0.

Definition typeDigits (ds : list Digit) : list Command := map Press ds.

(** The handlers applied to a sequence of commands, starting from [s]. *)
Definition runFrom (s : CalculatorState) (cs : list Command)
  : CalculatorState :=
  fold_left (fun s c => dispatch c s) cs s.

(** How many times the character [a] occurs in [s]. *)
Fixpoint occurrences (a : ascii) (s : string) : nat :=
  match s with
  | EmptyString => 0
  | String c r => ((if (c =? a)%char then 1 else 0) + occurrences a r)%nat
  end.

(** A number being typed: not in error and not just after Equals. *)
Definition editing (s : CalculatorState) : Prop :=
  checkErrorState s = false /\ hasCalculated s = false.

(** Strings without white space, which [Number] reads as they are. *)
Fixpoint no_space (s : string) : bool :=
  match s with
  | EmptyString => true
  | String c r => negb (is_space c) && no_space r
  end.

(** ** Basic facts about strings and states *)

Lemma substring_0_length (s : string) : substring 0 (String.length s) s = s.
Proof.
  induction s as [|c r IH]; simpl; [reflexivity | now rewrite IH].
Qed.

Lemma slice_1_cons (c : ascii) (r : string) : slice_1 (String c r) = r.
Proof.
  unfold slice_1; simpl. rewrite Nat.sub_0_r. apply substring_0_length.
Qed.

Lemma slice_0_m1_cons (c d : ascii) (r : string) :
  slice_0_m1 (String c (String d r)) = String c (slice_0_m1 (String d r)).
Proof.
  unfold slice_0_m1; simpl. now rewrite Nat.sub_0_r.
Qed.

Lemma slice_0_m1_single (c : ascii) : slice_0_m1 (String c "") = "".
Proof. reflexivity. Qed.

Lemma checkErrorState_false (s : CalculatorState) :
  checkErrorState s = false ->
  isError s = false /\ (currentInput s =? "Error")%string = false.
Proof.
  unfold checkErrorState. intros H. now apply orb_false_elim in H.
Qed.

Lemma enterError_fields (s : CalculatorState) : error_fields (enterError s).
Proof. repeat split. Qed.

Lemma strict_eq_zero (b : number) :
  strict_eq b zero = true -> exists sg, b = S754_zero sg.
Proof.
  destruct b as [sg|sg| |sg m e]; simpl.
  - intros _. now exists sg.
  - destruct sg; discriminate.
  - discriminate.
  - destruct sg; discriminate.
Qed.

Lemma divide_by_zero (a b : number) :
  strict_eq b zero = true -> performCalculation a "/" b = NaN.
Proof.
  intros H. unfold performCalculation. simpl. now rewrite H.
Qed.

Lemma selectOperator_chain (op : string) (s : CalculatorState)
  (a : number) (o : string) :
  checkErrorState s = false ->
  firstOperand s = Some a -> operator s = Some o -> o <> "" ->
  currentInput s <> "0" ->
  selectOperator op s =
    let r := performCalculation a o (getCurrentInputAsNumber s) in
    if isFinite r then
      {| firstOperand := Some r; secondOperand := None;
         operator := Some op; currentInput := "0";
         hasCalculated := false; isError := false |}
    else
      {| firstOperand := None; secondOperand := None; operator := None;
         currentInput := "Error"; hasCalculated := false; isError := true |}.
Proof.
  intros He Hf Ho Hne Hc.
  destruct (checkErrorState_false s He) as [Hie _].
  unfold selectOperator. rewrite He.
  apply String.eqb_neq in Hc.
  destruct o as [|c o']; [congruence|].
  destruct s as [f sec o0 c0 hc ie]; simpl in *. subst.
  destruct hc; simpl; rewrite Hc; simpl;
    destruct (isFinite _); reflexivity.
Qed.

Lemma selectOperator_swap (op : string) (s : CalculatorState)
  (a : number) (o : string) :
  checkErrorState s = false ->
  firstOperand s = Some a -> operator s = Some o ->
  currentInput s = "0" ->
  selectOperator op s =
    {| firstOperand := Some a;
       secondOperand := if hasCalculated s then None else secondOperand s;
       operator := Some op; currentInput := "0";
       hasCalculated := false; isError := false |}.
Proof.
  intros He Hf Ho Hc.
  destruct (checkErrorState_false s He) as [Hie _].
  unfold selectOperator. rewrite He.
  destruct s as [f sec o0 c0 hc ie]; simpl in *. subst.
  destruct hc; simpl; destruct o as [|c o']; reflexivity.
Qed.

Lemma calculateResult_pending (s : CalculatorState) (a : number) (o : string) :
  checkErrorState s = false ->
  firstOperand s = Some a -> operator s = Some o ->
  calculateResult s =
    let r := performCalculation a o (equalsOperand s) in
    if isFinite r then
      {| firstOperand := Some r; secondOperand := Some (equalsOperand s);
         operator := Some o; currentInput := formatDisplayNumber r;
         hasCalculated := true; isError := false |}
    else enterError s.
Proof.
  intros He Hf Ho.
  destruct (checkErrorState_false s He) as [Hie _].
  unfold calculateResult, equalsOperand. rewrite He, Hf, Ho. simpl.
  destruct (isFinite _); simpl; [now rewrite Hie | reflexivity].
Qed.

(** ** Error entry *)

(** C1: from a state that is not in error, whenever [selectOperator] (in its
    chaining branch) or [calculateResult] computes a non-finite result, the
    resulting state has [currentInput = "Error"], [isError = true] and
    [firstOperand], [secondOperand] and [operator] all null; a division by
    zero is such a result. *)
Theorem nonfinite_result_enters_error (s : CalculatorState)
  (a : number) (o : string) :
  checkErrorState s = false ->
  firstOperand s = Some a -> operator s = Some o ->
  (forall op, o <> "" -> currentInput s <> "0" ->
     isFinite (performCalculation a o (getCurrentInputAsNumber s)) = false ->
     error_fields (selectOperator op s)) /\
  (isFinite (performCalculation a o (equalsOperand s)) = false ->
     error_fields (calculateResult s)) /\
  (forall b, strict_eq b zero = true ->
     isFinite (performCalculation a "/" b) = false).
Proof.
  intros He Hf Ho. split; [|split].
  - intros op Hne Hc Hnf.
    rewrite (selectOperator_chain op s a o) by assumption.
    simpl. rewrite Hnf. repeat split.
  - intros Hnf.
    rewrite (calculateResult_pending s a o) by assumption.
    simpl. rewrite Hnf. apply enterError_fields.
  - intros b Hb. now rewrite (divide_by_zero a b Hb).
Qed.

Lemma nonfinite_result_enters_error_witness :
  let s := run [Press D9; Operator Divide; DecimalPoint] in
  error_fields (selectOperator "+" s) /\ error_fields (calculateResult s).
Proof.
  pose proof (nonfinite_result_enters_error
                (run [Press D9; Operator Divide; DecimalPoint])
                (ofZ 9) "/" eq_refl eq_refl eq_refl) as [H1 [H2 _]].
  split.
  - apply H1; [discriminate | discriminate | reflexivity].
  - apply H2. reflexivity.
Defined.

(** ** The error state and the ways out of it *)

(** C2, as stated, fails: in the error state reached by [9 / 0 =],
    [addDecimalPoint] does not leave the state unchanged; it resets the
    engine and shows ["0."]. *)
Lemma error_state_decimal_point_escapes :
  let s := run [Press D9; Operator Divide; Press D0; Equals] in
  checkErrorState s = true /\
  addDecimalPoint s <> s /\
  currentInput (addDecimalPoint s) = "0." /\
  isError (addDecimalPoint s) = false.
Proof.
  simpl. repeat split. discriminate.
Qed.

(** C2, amended: in a state in error, [toggleSign], [removeLastCharacter],
    [selectOperator] and [calculateResult] leave the state unchanged;
    [appendDigit] and [addDecimalPoint] both perform an implicit clear and
    then append (the digit replaces the fresh ["0"], the point gives ["0."]);
    [clearCalculator] resets to the initial state. *)
Theorem error_state_absorbing (s : CalculatorState) :
  checkErrorState s = true ->
  toggleSign s = s /\
  removeLastCharacter s = s /\
  (forall op, selectOperator op s = s) /\
  calculateResult s = s /\
  (forall d, appendDigit d s = appendDigit d (clearCalculator s) /\
             appendDigit d s = set_currentInput d calculatorState) /\
  (addDecimalPoint s = addDecimalPoint (clearCalculator s) /\
   addDecimalPoint s = set_currentInput "0." calculatorState) /\
  clearCalculator s = calculatorState.
Proof.
  intros He.
  unfold toggleSign, removeLastCharacter, selectOperator, calculateResult,
    appendDigit, addDecimalPoint, resetStateForNewInput.
  rewrite He. simpl. repeat split.
Qed.

Lemma error_state_absorbing_witness :
  let s := run [Press D9; Operator Divide; Press D0; Equals] in
  toggleSign s = s /\
  removeLastCharacter s = s /\
  (forall op, selectOperator op s = s) /\
  calculateResult s = s /\
  (forall d, appendDigit d s = appendDigit d (clearCalculator s) /\
             appendDigit d s = set_currentInput d calculatorState) /\
  (addDecimalPoint s = addDecimalPoint (clearCalculator s) /\
   addDecimalPoint s = set_currentInput "0." calculatorState) /\
  clearCalculator s = calculatorState.
Proof.
  exact (error_state_absorbing
           (run [Press D9; Operator Divide; Press D0; Equals]) eq_refl).
Defined.

(** ** Operator chaining *)

(** C4, as stated, fails in the post-equals state: after [5 - 5 =] an operator
    and a first operand are set and [currentInput] is ["0"], yet pressing an
    operator also clears [hasCalculated] and [secondOperand]. *)
Lemma operator_swap_post_equals_clears :
  let s := run [Press D5; Operator Minus; Press D5; Equals] in
  checkErrorState s = false /\
  firstOperand s <> None /\ operator s = Some "-" /\ currentInput s = "0" /\
  selectOperator "+" s <> set_operator "+" s /\
  hasCalculated (selectOperator "+" s) <> hasCalculated s /\
  secondOperand (selectOperator "+" s) <> secondOperand s.
Proof.
  vm_compute. repeat split; discriminate.
Qed.

(** C4, amended: when an operator and a first operand are set and the state
    is not in error, pressing an operator [op] with [currentInput <> "0"]
    computes [performCalculation firstOperand operator readNumber] and, the
    result being finite, stores it as [firstOperand], sets [operator] to
    [op], clears [secondOperand] and [hasCalculated] and resets
    [currentInput] to ["0"]; with [currentInput = "0"] it replaces the
    operator and, coming from the post-equals state, also clears
    [hasCalculated] and [secondOperand], changing nothing else.  The sequence
    [1 + 2 + 3 =] ends with [currentInput = "6"]. *)
Theorem operator_chaining (s : CalculatorState) (op : string)
  (a : number) (o : string) :
  checkErrorState s = false ->
  firstOperand s = Some a -> operator s = Some o -> o <> "" ->
  (currentInput s <> "0" ->
   isFinite (performCalculation a o (getCurrentInputAsNumber s)) = true ->
   selectOperator op s =
     {| firstOperand :=
          Some (performCalculation a o (getCurrentInputAsNumber s));
        secondOperand := None; operator := Some op; currentInput := "0";
        hasCalculated := false; isError := false |}) /\
  (currentInput s = "0" ->
   selectOperator op s =
     {| firstOperand := firstOperand s;
        secondOperand := if hasCalculated s then None else secondOperand s;
        operator := Some op; currentInput := currentInput s;
        hasCalculated := false; isError := isError s |}) /\
  currentInput
    (run [Press D1; Operator Plus; Press D2; Operator Plus; Press D3; Equals])
  = "6".
Proof.
  intros He Hf Ho Hne. split; [|split].
  - intros Hc Hfin.
    rewrite (selectOperator_chain op s a o) by assumption.
    simpl. now rewrite Hfin.
  - intros Hc.
    rewrite (selectOperator_swap op s a o) by assumption.
    destruct (checkErrorState_false s He) as [Hie _].
    now rewrite Hf, Hc, Hie.
  - vm_compute. reflexivity.
Qed.

Lemma operator_chaining_witness :
  let s := run [Press D1; Operator Plus; Press D2] in
  let s0 := run [Press D1; Operator Plus] in
  selectOperator "+" s =
    {| firstOperand := Some (ofZ 3); secondOperand := None;
       operator := Some "+"; currentInput := "0";
       hasCalculated := false; isError := false |} /\
  selectOperator "*" s0 =
    {| firstOperand := Some (ofZ 1); secondOperand := None;
       operator := Some "*"; currentInput := "0";
       hasCalculated := false; isError := false |}.
Proof.
  split.
  - apply (proj1 (operator_chaining
                    (run [Press D1; Operator Plus; Press D2]) "+"
                    (ofZ 1) "+" eq_refl eq_refl eq_refl
                    ltac:(discriminate)));
      [discriminate | reflexivity].
  - apply (proj1 (proj2 (operator_chaining
                    (run [Press D1; Operator Plus]) "*"
                    (ofZ 1) "+" eq_refl eq_refl eq_refl
                    ltac:(discriminate)))).
    reflexivity.
Defined.

(** ** Division by zero *)



(** The post-equals exception: after [1 / 10000000000000 =] the first
    operand is the non-zero 1e-13, the display ["0"] reads as 0 and ["/"] is
    still set, but a repeated Equals divides by the stored 10000000000000
    again and does not enter the error state. *)
Lemma repeated_equals_reuses_divisor :
  let s :=
    run [Press D1; Operator Divide; Press D1; Press D0; Press D0; Press D0;
         Press D0; Press D0; Press D0; Press D0; Press D0; Press D0;
         Press D0; Press D0; Press D0; Press D0; Equals] in
  operator s = Some "/" /\ currentInput s = "0" /\
  strict_eq (getCurrentInputAsNumber s) zero = true /\
  option_map toString (firstOperand s) = Some "1e-13" /\
  checkErrorState (calculateResult s) = false /\
  option_map toString (firstOperand (calculateResult s)) = Some "1e-26".
Proof.
  vm_compute. repeat split.
Qed.


(** ** The texts of numbers *)

Lemma digit_not_dash (a : ascii) :
  is_digit a = true -> (a =? "-")%char = false.
Proof.
  intros H.
  destruct (Ascii.eqb_spec a "-"); [subst; discriminate | reflexivity].
Qed.

Lemma digit_not_point (a : ascii) :
  is_digit a = true -> (a =? ".")%char = false.
Proof.
  intros H.
  destruct (Ascii.eqb_spec a "."); [subst; discriminate | reflexivity].
Qed.

Lemma head_ok_not_dash (a : ascii) (r : string) :
  head_ok (String a r) = true -> (a =? "-")%char = false.
Proof.
  simpl. intros H.
  destruct (Ascii.eqb_spec a "-"); [subst; discriminate | reflexivity].
Qed.

Lemma prefix_single (a b : ascii) (r : string) :
  prefix (String a "") (String b r) = (a =? b)%char.
Proof.
  cbn [prefix]. destruct (ascii_dec a b) as [<-|Hn].
  - rewrite Ascii.eqb_refl. now destruct r.
  - symmetry. now apply Ascii.eqb_neq.
Qed.

Lemma startsWith_dash (a : ascii) (r : string) :
  startsWith "-" (String a r) = (a =? "-")%char.
Proof.
  unfold startsWith. rewrite prefix_single. apply Ascii.eqb_sym.
Qed.

Lemma includes_point_cons (a : ascii) (r : string) :
  includes "." (String a r) = (a =? ".")%char || includes "." r.
Proof.
  cbn [includes]. rewrite prefix_single. now rewrite Ascii.eqb_sym.
Qed.

Lemma is_digit_digit_char (d : Z) :
  0 <= d < 10 -> is_digit (digit_char d) = true.
Proof.
  intros H.
  assert (Hd : d = 0 \/ d = 1 \/ d = 2 \/ d = 3 \/ d = 4 \/ d = 5 \/
               d = 6 \/ d = 7 \/ d = 8 \/ d = 9) by lia.
  repeat (destruct Hd as [-> | Hd]; [reflexivity|]). now subst.
Qed.

Lemma digits_fixed_head (k : nat) (s : Z) :
  exists a r, digits_fixed (S k) s = String a r /\ is_digit a = true.
Proof.
  simpl. eexists; eexists; split; [reflexivity|].
  apply is_digit_digit_char. apply Z.mod_pos_bound. lia.
Qed.

Lemma shortest_digits_positive (fuel : nat) (x : number) (p q n0 k : Z) :
  1 <= k -> 1 <= snd (shortest fuel x p q n0 k).
Proof.
  revert k. induction fuel as [|f IH]; intros k Hk; simpl.
  - destruct (scaled p q (k - n0)). exact Hk.
  - destruct (try_digits x p q n0 k) as [[s n]|]; [exact Hk|].
    apply IH. lia.
Qed.

Lemma format_digits_head (s n k : Z) :
  1 <= k -> head_ok (format_digits s n k) = true.
Proof.
  intros Hk. unfold format_digits.
  destruct (Z.to_nat k) as [|k'] eqn:Ek; [lia|].
  destruct (digits_fixed_head k' s) as (a & r & -> & Ha).
  assert (Hh : forall t, head_ok (String a t) = true)
    by (intros t; simpl; now rewrite Ha).
  destruct ((k <=? n) && (n <=? 21)); [apply Hh|].
  destruct ((0 <? n) && (n <=? 21)) eqn:En.
  - apply andb_prop in En as [En _]. apply Z.ltb_lt in En.
    destruct (Z.to_nat n) as [|n'] eqn:En'; [lia|]. apply Hh.
  - destruct ((-6 <? n) && (n <=? 0)); [reflexivity|].
    destruct r; apply Hh.
Qed.

Lemma toString_pos_head (m : positive) (e : Z) :
  head_ok (toString_pos m e) = true.
Proof.
  unfold toString_pos.
  set (p := if 0 <=? e then Z.pos m * 2 ^ e else Z.pos m).
  set (q := if 0 <=? e then 1 else 2 ^ (- e)).
  pose proof (shortest_digits_positive 17 (S754_finite false m e) p q
                (magnitude10 p q) 1 (Z.le_refl 1)) as H.
  destruct (shortest 17 _ p q _ 1) as [[s n] k]. simpl in H.
  now apply format_digits_head.
Qed.

Lemma toString_abs_head (x : number) : head_ok (toString (SFabs x)) = true.
Proof.
  destruct x as [sg|sg| |sg m e]; simpl; try reflexivity.
  apply toString_pos_head.
Qed.

Lemma toString_result_text (x : number) : result_text (toString x).
Proof.
  exists x. destruct x as [sg|[|]| |[|] m e]; simpl; auto.
Qed.

Lemma result_text_signed (c : string) :
  result_text c ->
  exists b, head_ok b = true /\ (c = b \/ c = String "-" b).
Proof.
  intros [x H]. exists (toString (SFabs x)). split; [|exact H].
  apply toString_abs_head.
Qed.

Lemma entered_number_signed (c : string) :
  entered_number c = true ->
  exists b, head_ok b = true /\ unsigned_number b = true /\
            (c = b \/ c = String "-" b).
Proof.
  unfold entered_number, signed. destruct c as [|a r]; [discriminate|].
  destruct (a =? "-")%char eqn:Ea.
  - apply Ascii.eqb_eq in Ea. subst a. intros H. exists r.
    destruct r as [|b r']; [discriminate|]. simpl in H.
    apply andb_prop in H as [Hb Hr]. simpl. rewrite Hb, Hr. auto.
  - intros H. exists (String a r). simpl in H.
    apply andb_prop in H as [Hb Hr]. simpl. rewrite Hb, Hr. auto.
Qed.

Lemma signed_text_not_error (b c : string) :
  head_ok b = true -> c = b \/ c = String "-" b ->
  (c =? "Error")%string = false.
Proof.
  intros Hb [-> | ->]; apply String.eqb_neq; intros E.
  - subst b. discriminate.
  - discriminate.
Qed.

Lemma entered_number_not_error (c : string) :
  entered_number c = true -> (c =? "Error")%string = false.
Proof.
  intros H. destruct (entered_number_signed c H) as (b & Hb & _ & Hc).
  exact (signed_text_not_error b c Hb Hc).
Qed.

Lemma result_text_not_error (c : string) :
  result_text c -> (c =? "Error")%string = false.
Proof.
  intros H. destruct (result_text_signed c H) as (b & Hb & Hc).
  exact (signed_text_not_error b c Hb Hc).
Qed.

Lemma digitKey_digit (d : Digit) :
  exists a, digitKey d = String a "" /\ is_digit a = true.
Proof. destruct d; eexists; split; reflexivity. Qed.

Lemma digits_only_app (r : string) (a : ascii) :
  is_digit a = true -> digits_only r = true ->
  digits_only (r ++ String a "") = true.
Proof.
  intros Ha. induction r as [|c r IH]; simpl.
  - now rewrite Ha.
  - intros H. apply andb_prop in H as [Hc Hr]. now rewrite Hc, IH.
Qed.

Lemma int_then_frac_app (r : string) (a : ascii) :
  is_digit a = true -> int_then_frac r = true ->
  int_then_frac (r ++ String a "") = true.
Proof.
  intros Ha. induction r as [|c r IH]; simpl.
  - now rewrite Ha.
  - destruct (is_digit c); [exact IH|].
    intros H. apply andb_prop in H as [Hc Hr].
    now rewrite Hc, digits_only_app.
Qed.

Lemma entered_number_app (c : string) (a : ascii) :
  is_digit a = true -> entered_number c = true ->
  entered_number (c ++ String a "") = true.
Proof.
  intros Ha. unfold entered_number, signed.
  destruct c as [|x r]; [discriminate|]. simpl.
  destruct (x =? "-")%char.
  - destruct r as [|y r']; [discriminate|]. simpl.
    intros H. apply andb_prop in H as [Hy Hr].
    now rewrite Hy, int_then_frac_app.
  - intros H. apply andb_prop in H as [Hx Hr].
    now rewrite Hx, int_then_frac_app.
Qed.

Lemma int_then_frac_point (r : string) :
  includes "." r = false -> int_then_frac r = true ->
  int_then_frac (r ++ ".") = true.
Proof.
  induction r as [|c r IH]; simpl append; [reflexivity|].
  rewrite includes_point_cons. intros H. apply orb_false_elim in H as [Hc Hr].
  simpl. rewrite Hc. simpl.
  destruct (is_digit c); [now apply IH | discriminate].
Qed.

Lemma entered_number_point (c : string) :
  includes "." c = false -> entered_number c = true ->
  entered_number (c ++ ".") = true.
Proof.
  unfold entered_number, signed.
  destruct c as [|x r]; [discriminate|].
  rewrite includes_point_cons. intros H. apply orb_false_elim in H as [Hx Hr].
  simpl append. cbv iota.
  destruct (x =? "-")%char.
  - destruct r as [|y r']; [discriminate|].
    rewrite includes_point_cons in Hr. apply orb_false_elim in Hr as [Hy Hr'].
    simpl. intros H. apply andb_prop in H as [Hd Hi].
    now rewrite Hd, int_then_frac_point.
  - simpl. intros H. apply andb_prop in H as [Hd Hi].
    now rewrite Hd, int_then_frac_point.
Qed.

Lemma digits_only_init (a : ascii) (r : string) :
  digits_only (String a r) = true ->
  digits_only (slice_0_m1 (String a r)) = true.
Proof.
  revert a. induction r as [|b r IH]; intros a; [reflexivity|].
  rewrite slice_0_m1_cons. simpl. intros H.
  apply andb_prop in H as [Ha Hr]. rewrite Ha. simpl.
  apply IH. exact Hr.
Qed.

Lemma int_then_frac_init (a : ascii) (r : string) :
  int_then_frac (String a r) = true ->
  int_then_frac (slice_0_m1 (String a r)) = true.
Proof.
  revert a. induction r as [|b r IH]; intros a; [reflexivity|].
  rewrite slice_0_m1_cons. simpl. destruct (is_digit a).
  - intros H. apply IH. exact H.
  - intros H. apply andb_prop in H as [Ha Hr]. rewrite Ha. simpl.
    apply (digits_only_init b r). exact Hr.
Qed.

(** ** The shapes of reachable states *)

Lemma shape_checkErrorState (s : CalculatorState) :
  shape s -> checkErrorState s = isError s.
Proof.
  intros [hc | f o c Hc Hp | a b op c Hc]; unfold checkErrorState; simpl.
  - reflexivity.
  - apply entered_number_not_error. exact Hc.
  - apply result_text_not_error. exact Hc.
Qed.

Lemma shape_fresh (c : string) :
  entered_number c = true -> shape (set_currentInput c calculatorState).
Proof.
  intros H. apply (shape_entering None None c H). exact I.
Qed.

Lemma entered_digitKey (d : Digit) : entered_number (digitKey d) = true.
Proof. now destruct d. Qed.

Lemma entered_dash_digitKey (d : Digit) :
  entered_number ("-" ++ digitKey d) = true.
Proof. now destruct d. Qed.

Lemma shape_appendDigit (d : Digit) (s : CalculatorState) :
  shape s -> shape (appendDigit (digitKey d) s).
Proof.
  intros H. pose proof (shape_checkErrorState s H) as He.
  unfold appendDigit, resetStateForNewInput. rewrite He.
  destruct H as [hc | f o c Hc Hp | a b op c Hc]; simpl.
  - apply shape_fresh, entered_digitKey.
  - destruct (c =? "0")%string.
    + apply shape_entering; [apply entered_digitKey | exact Hp].
    + destruct (c =? "-0")%string.
      * apply shape_entering; [apply entered_dash_digitKey | exact Hp].
      * apply shape_entering; [|exact Hp].
        destruct (digitKey_digit d) as (x & -> & Hx).
        now apply entered_number_app.
  - apply shape_fresh, entered_digitKey.
Qed.

Lemma shape_addDecimalPoint (s : CalculatorState) :
  shape s -> shape (addDecimalPoint s).
Proof.
  intros H. pose proof (shape_checkErrorState s H) as He.
  unfold addDecimalPoint, resetStateForNewInput. rewrite He.
  destruct H as [hc | f o c Hc Hp | a b op c Hc]; simpl.
  - now apply shape_fresh.
  - destruct (includes "." c) eqn:Ei; simpl.
    + now apply shape_entering.
    + apply shape_entering; [|exact Hp]. now apply entered_number_point.
  - now apply shape_fresh.
Qed.

Lemma entered_number_unsigned (a : ascii) (r : string) :
  (a =? "-")%char = false ->
  entered_number (String a r) = unsigned_number (String a r).
Proof. intros H. unfold entered_number, signed. now rewrite H. Qed.

Lemma unsigned_number_entered (r : string) :
  unsigned_number r = true -> entered_number r = true.
Proof.
  destruct r as [|b r']; [discriminate|]. intros H.
  rewrite entered_number_unsigned; [exact H|].
  apply digit_not_dash. simpl in H. now apply andb_prop in H.
Qed.

Lemma entered_number_toggle (c : string) :
  entered_number c = true ->
  entered_number (if startsWith "-" c then slice_1 c else "-" ++ c) = true.
Proof.
  destruct c as [|a r]; [discriminate|].
  rewrite startsWith_dash, slice_1_cons.
  destruct (a =? "-")%char eqn:Ea.
  - unfold entered_number at 1, signed. rewrite Ea.
    apply unsigned_number_entered.
  - rewrite (entered_number_unsigned a r Ea). intros H. exact H.
Qed.

Lemma result_text_toggle (c : string) :
  result_text c ->
  result_text (if startsWith "-" c then slice_1 c else "-" ++ c).
Proof.
  intros [x [H | H]]; exists x.
  - pose proof (toString_abs_head x) as Hh. rewrite <- H in Hh.
    destruct c as [|a r]; [discriminate|].
    rewrite startsWith_dash, (head_ok_not_dash a r Hh).
    right. simpl. now rewrite H.
  - subst c. rewrite startsWith_dash, slice_1_cons. now left.
Qed.

Lemma shape_toggleSign (s : CalculatorState) : shape s -> shape (toggleSign s).
Proof.
  intros H. pose proof (shape_checkErrorState s H) as He.
  unfold toggleSign. rewrite He.
  destruct H as [hc | f o c Hc Hp | a b op c Hc]; simpl.
  - constructor.
  - destruct ((c =? "0")%string || (c =? "0.")%string).
    + now apply shape_entering.
    + apply shape_entering; [|exact Hp]. now apply entered_number_toggle.
  - destruct ((c =? "0")%string || (c =? "0.")%string).
    + now apply shape_result.
    + apply shape_result. now apply result_text_toggle.
Qed.

Lemma entered_number_backspace (c : string) :
  entered_number c = true ->
  entered_number
    (if (String.length c <=? 1)%nat
        || ((String.length c =? 2)%nat && startsWith "-" c)
     then "0"
     else if (slice_0_m1 c =? "-")%string then "0" else slice_0_m1 c) = true.
Proof.
  destruct c as [|a r]; [discriminate|].
  destruct r as [|b r]; [reflexivity|].
  rewrite startsWith_dash.
  destruct (a =? "-")%char eqn:Ea.
  - destruct r as [|d r]; [reflexivity|].
    unfold entered_number at 1, signed. rewrite Ea.
    cbn [String.length Nat.leb Nat.eqb orb andb].
    rewrite slice_0_m1_cons, slice_0_m1_cons.
    intros H. cbn [unsigned_number] in H. apply andb_prop in H as [Hb Hr].
    replace (String a (String b (slice_0_m1 (String d r))) =? "-")%string
      with false by (symmetry; apply String.eqb_neq; discriminate).
    unfold entered_number, signed. rewrite Ea.
    cbn [unsigned_number]. rewrite Hb. cbn [andb].
    exact (int_then_frac_init d r Hr).
  - rewrite andb_false_r. cbn [String.length Nat.leb orb].
    rewrite slice_0_m1_cons.
    rewrite (entered_number_unsigned a _ Ea).
    intros H. cbn [unsigned_number] in H. apply andb_prop in H as [Ha Hr].
    replace (String a (slice_0_m1 (String b r)) =? "-")%string with false.
    + rewrite (entered_number_unsigned a _ Ea).
      cbn [unsigned_number]. rewrite Ha. cbn [andb].
      exact (int_then_frac_init b r Hr).
    + symmetry. apply String.eqb_neq. intros E. inversion E. subst a.
      discriminate.
Qed.

Lemma shape_removeLastCharacter (s : CalculatorState) :
  shape s -> shape (removeLastCharacter s).
Proof.
  intros H. pose proof (shape_checkErrorState s H) as He.
  unfold removeLastCharacter. rewrite He.
  destruct H as [hc | f o c Hc Hp | a b op c Hc]; simpl.
  - constructor.
  - pose proof (entered_number_backspace c Hc) as Hb.
    destruct ((String.length c <=? 1)%nat
              || ((String.length c =? 2)%nat && startsWith "-" c)).
    + now apply shape_entering.
    + destruct (slice_0_m1 c =? "-")%string; now apply shape_entering.
  - now apply shape_result.
Qed.

Lemma opKey_truthy (op : Op) : exists a r, opKey op = String a r.
Proof. destruct op; eexists; eexists; reflexivity. Qed.

Lemma shape_selectOperator (op : Op) (s : CalculatorState) :
  shape s -> shape (selectOperator (opKey op) s).
Proof.
  intros H. pose proof (shape_checkErrorState s H) as He.
  unfold selectOperator. rewrite He.
  destruct H as [hc | f o c Hc Hp | a b op0 c Hc]; simpl.
  - constructor.
  - destruct f as [a|], o as [k|]; simpl in Hp; try contradiction.
    + destruct Hp as [op0 ->].
      destruct (opKey_truthy op0) as (x & r & Hk). rewrite Hk.
      destruct (c =? "0")%string eqn:Ec; simpl.
      * apply shape_entering; [exact Hc | now exists op].
      * destruct (isFinite _); simpl.
        -- apply shape_entering; [reflexivity | now exists op].
        -- constructor.
    + apply shape_entering; [reflexivity | now exists op].
  - destruct (opKey_truthy op0) as (x & r & Hk). rewrite Hk.
    destruct (c =? "0")%string eqn:Ec; simpl.
    + apply String.eqb_eq in Ec. subst c.
      apply shape_entering; [reflexivity | now exists op].
    + destruct (isFinite _); simpl.
      * apply shape_entering; [reflexivity | now exists op].
      * constructor.
Qed.

Lemma formatDisplayNumber_result_text (x : number) :
  isFinite x = true -> result_text (formatDisplayNumber x).
Proof.
  intros H. unfold formatDisplayNumber. rewrite H. simpl.
  apply toString_result_text.
Qed.

Lemma shape_calculateResult (s : CalculatorState) :
  shape s -> shape (calculateResult s).
Proof.
  intros H. pose proof (shape_checkErrorState s H) as He.
  unfold calculateResult. rewrite He.
  destruct H as [hc | f o c Hc Hp | a b op0 c Hc]; simpl.
  - constructor.
  - destruct f as [a|], o as [k|]; simpl in Hp; try contradiction.
    + destruct Hp as [op0 ->].
      destruct (isFinite _) eqn:Ef; simpl.
      * apply shape_result. now apply formatDisplayNumber_result_text.
      * constructor.
    + now apply shape_entering.
  - destruct (isFinite _) eqn:Ef; simpl.
    + apply shape_result. now apply formatDisplayNumber_result_text.
    + constructor.
Qed.

Lemma shape_dispatch (c : Command) (s : CalculatorState) :
  shape s -> shape (dispatch c s).
Proof.
  intros H. destruct c; simpl.
  - now apply shape_appendDigit.
  - now apply shape_addDecimalPoint.
  - now apply shape_selectOperator.
  - now apply shape_toggleSign.
  - now apply shape_removeLastCharacter.
  - now apply shape_fresh.
  - now apply shape_calculateResult.
Qed.

Lemma reachable_shape (s : CalculatorState) : reachable s -> shape s.
Proof.
  induction 1 as [|c s _ IH].
  - now apply shape_fresh.
  - now apply shape_dispatch.
Qed.

Lemma reachable_run (cs : list Command) : reachable (run cs).
Proof.
  unfold run. generalize (reachable_init).
  generalize (clearCalculator calculatorState).
  induction cs as [|c cs IH]; intros s Hs; simpl; [exact Hs|].
  apply IH. now constructor.
Qed.

(** ** Invariants of reachable states *)

(** C6: in every state reachable from the initial state by any sequence of
    commands, [isError] is true if and only if [currentInput] is the string
    ["Error"]. *)
Theorem isError_iff_Error_text (s : CalculatorState) :
  reachable s -> (isError s = true <-> currentInput s = "Error").
Proof.
  intros H. apply reachable_shape in H.
  destruct H as [hc | f o c Hc Hp | a b op c Hc]; simpl.
  - split; reflexivity.
  - apply entered_number_not_error, String.eqb_neq in Hc.
    split; [discriminate | contradiction].
  - apply result_text_not_error, String.eqb_neq in Hc.
    split; [discriminate | contradiction].
Qed.

Lemma isError_iff_Error_text_witness :
  let s := run [Press D9; Operator Divide; Press D0; Equals] in
  isError s = true <-> currentInput s = "Error".
Proof.
  exact (isError_iff_Error_text
           (run [Press D9; Operator Divide; Press D0; Equals])
           (reachable_run _)).
Defined.

Lemma int_then_frac_of_unsigned (c : string) :
  unsigned_number c = true -> int_then_frac c = true.
Proof.
  destruct c as [|a r]; [reflexivity|]. simpl.
  intros H. apply andb_prop in H as [Ha Hr]. now rewrite Ha.
Qed.

Lemma entered_number_partial (c : string) :
  entered_number c = true -> partial_number c = true.
Proof.
  unfold entered_number, partial_number, signed.
  destruct c as [|a r]; [discriminate|].
  destruct (a =? "-")%char; apply int_then_frac_of_unsigned.
Qed.

(** C7, as stated, fails: [1 / 10000000 =] leaves [currentInput = "1e-7"],
    which is neither a partial-number string nor ["Error"]. *)
Lemma exponent_notation_reachable :
  let s :=
    run [Press D1; Operator Divide; Press D1; Press D0; Press D0; Press D0;
         Press D0; Press D0; Press D0; Press D0; Equals] in
  reachable s /\ currentInput s = "1e-7" /\
  partial_number (currentInput s) = false /\ currentInput s <> "Error".
Proof.
  split; [apply reachable_run|].
  vm_compute. repeat split. discriminate.
Qed.

Lemma shape_input_text_ok (s : CalculatorState) : shape s -> input_text_ok s.
Proof.
  intros [hc | f o c Hc Hp | a b op c [x Hc]]; unfold input_text_ok; simpl.
  - now left.
  - right; left. split; [exact Hc | now apply entered_number_partial].
  - right; right. repeat split. now exists (SFabs x).
Qed.

(** C7, amended: in every reachable state [currentInput] is exactly
    ["Error"], or a partial-number string (optional leading ["-"], at least
    one digit, optional single ["."], digits), or, in the post-equals state
    only, the text [String(x)] of the displayed result, with or without a
    leading ["-"]; that text may use exponent notation or be ["Infinity"].
    Every command preserves this. *)
Theorem currentInput_text (s : CalculatorState) :
  reachable s ->
  input_text_ok s /\ forall c : Command, input_text_ok (dispatch c s).
Proof.
  intros H. apply reachable_shape in H. split.
  - now apply shape_input_text_ok.
  - intros c. now apply shape_input_text_ok, shape_dispatch.
Qed.

Lemma currentInput_text_witness :
  let s := run [Press D1; Operator Divide; Press D7; Equals] in
  input_text_ok s /\ forall c : Command, input_text_ok (dispatch c s).
Proof.
  exact (currentInput_text (run [Press D1; Operator Divide; Press D7; Equals])
           (reachable_run _)).
Defined.

(** ** Sign toggling *)

Lemma set_currentInput_twice (c d : string) (s : CalculatorState) :
  set_currentInput c (set_currentInput d s) = set_currentInput c s.
Proof. reflexivity. Qed.

Lemma set_currentInput_same (s : CalculatorState) :
  set_currentInput (currentInput s) s = s.
Proof. now destruct s. Qed.

Lemma toggleSign_unsigned (s : CalculatorState) (b : string) :
  isError s = false -> head_ok b = true -> currentInput s = b ->
  b <> "0" -> b <> "0." ->
  toggleSign s = set_currentInput (String "-" b) s.
Proof.
  intros Hie Hb Hc H0 H0p.
  unfold toggleSign, checkErrorState. rewrite Hie, Hc.
  rewrite (signed_text_not_error b b Hb (or_introl eq_refl)).
  apply String.eqb_neq in H0, H0p. rewrite H0, H0p. simpl.
  destruct b as [|a r]; [discriminate|].
  now rewrite startsWith_dash, (head_ok_not_dash a r Hb).
Qed.

Lemma toggleSign_signed (s : CalculatorState) (b : string) :
  isError s = false -> currentInput s = String "-" b ->
  toggleSign s = set_currentInput b s.
Proof.
  intros Hie Hc.
  unfold toggleSign, checkErrorState. rewrite Hie, Hc.
  now rewrite startsWith_dash, slice_1_cons.
Qed.

Lemma toggleSign_zero (s : CalculatorState) :
  currentInput s = "0" \/ currentInput s = "0." -> toggleSign s = s.
Proof.
  intros H. unfold toggleSign.
  destruct (checkErrorState s); [reflexivity|].
  destruct H as [-> | ->]; reflexivity.
Qed.

Lemma toggleSign_twice_signed_text (s : CalculatorState) (b : string) :
  isError s = false -> head_ok b = true ->
  currentInput s = b \/ currentInput s = String "-" b ->
  currentInput s <> "-0" -> currentInput s <> "-0." ->
  toggleSign (toggleSign s) = s.
Proof.
  intros Hie Hb [Hc | Hc] Hn0 Hn0p.
  - destruct (String.eqb_spec b "0") as [E0|N0].
    { subst b. rewrite (toggleSign_zero s) by auto.
      now apply toggleSign_zero; auto. }
    destruct (String.eqb_spec b "0.") as [E0p|N0p].
    { subst b. rewrite (toggleSign_zero s) by auto.
      now apply toggleSign_zero; auto. }
    rewrite (toggleSign_unsigned s b Hie Hb Hc N0 N0p).
    rewrite (toggleSign_signed _ b) by (destruct s; assumption || reflexivity).
    rewrite set_currentInput_twice, <- Hc. apply set_currentInput_same.
  - rewrite (toggleSign_signed s b Hie Hc).
    rewrite (toggleSign_unsigned _ b);
      try (destruct s; assumption || reflexivity).
    + rewrite set_currentInput_twice, <- Hc. apply set_currentInput_same.
    + intros E. apply Hn0. now rewrite Hc, E.
    + intros E. apply Hn0p. now rewrite Hc, E.
Qed.

(** C8, as stated, fails: after [. 5 Sign Backspace] the input is ["-0."];
    the first toggle gives ["0."], on which the second toggle does
    nothing. *)
Lemma toggleSign_twice_minus_zero :
  let s := run [DecimalPoint; Press D5; Sign; Backspace] in
  reachable s /\ currentInput s = "-0." /\
  currentInput (toggleSign (toggleSign s)) = "0." /\
  toggleSign (toggleSign s) <> s.
Proof.
  split; [apply reachable_run|].
  vm_compute. repeat split. discriminate.
Qed.

(** C8, amended: for every reachable state whose [currentInput] is neither
    ["-0"] nor ["-0."], applying [toggleSign] twice returns exactly the state
    it started from. *)
Theorem toggleSign_involutive (s : CalculatorState) :
  reachable s ->
  currentInput s <> "-0" -> currentInput s <> "-0." ->
  toggleSign (toggleSign s) = s.
Proof.
  intros H Hn0 Hn0p. apply reachable_shape in H.
  destruct H as [hc | f o c Hc Hp | a b op c Hc].
  - reflexivity.
  - destruct (entered_number_signed c Hc) as (t & Ht & _ & Hct).
    now apply (toggleSign_twice_signed_text _ t).
  - destruct (result_text_signed c Hc) as (t & Ht & Hct).
    now apply (toggleSign_twice_signed_text _ t).
Qed.

Lemma toggleSign_involutive_witness :
  let s := run [Press D4; Press D2; DecimalPoint; Press D5] in
  toggleSign (toggleSign s) = s.
Proof.
  apply (toggleSign_involutive
           (run [Press D4; Press D2; DecimalPoint; Press D5])
           (reachable_run _)); discriminate.
Defined.

(** C10: [toggleSign] applied in the post-equals state (not in error)
    modifies only [currentInput]: [firstOperand], [secondOperand], [operator],
    [hasCalculated] and [isError] are unchanged; in a reachable state a
    following Equals therefore computes exactly what it would have computed
    without the toggle, from the stored operands: after [5 + 3 =] the display
    is ["8"], Sign shows ["-8"], and Equals then shows ["11"]. *)
Theorem toggleSign_post_equals_frame (s : CalculatorState) :
  checkErrorState s = false -> hasCalculated s = true ->
  (firstOperand (toggleSign s) = firstOperand s /\
   secondOperand (toggleSign s) = secondOperand s /\
   operator (toggleSign s) = operator s /\
   hasCalculated (toggleSign s) = true /\
   isError (toggleSign s) = isError s) /\
  (reachable s -> calculateResult (toggleSign s) = calculateResult s) /\
  currentInput
    (run [Press D5; Operator Plus; Press D3; Equals; Sign]) = "-8" /\
  currentInput
    (run [Press D5; Operator Plus; Press D3; Equals; Sign; Equals]) = "11".
Proof.
  intros He Hhc. split; [|split; [|split]].
  - unfold toggleSign. rewrite He.
    destruct (_ || _); simpl; rewrite ?Hhc; repeat split.
  - intros H. apply reachable_shape in H.
    pose proof (shape_toggleSign s H) as H'.
    pose proof (shape_checkErrorState _ H') as He'.
    unfold calculateResult. rewrite He, He'.
    destruct H as [hc | f o c Hc Hp | a b op c Hc]; try discriminate.
    unfold toggleSign in *. rewrite He in *. simpl in *.
    destruct (_ || _); simpl; [reflexivity|].
    destruct (isFinite _); reflexivity.
  - vm_compute. reflexivity.
  - vm_compute. reflexivity.
Qed.

Lemma toggleSign_post_equals_frame_witness :
  let s := run [Press D5; Operator Plus; Press D3; Equals] in
  firstOperand (toggleSign s) = firstOperand s /\
  calculateResult (toggleSign s) = calculateResult s.
Proof.
  pose proof (toggleSign_post_equals_frame
                (run [Press D5; Operator Plus; Press D3; Equals])
                eq_refl eq_refl) as [[H1 _] [H2 _]].
  split; [exact H1 | exact (H2 (reachable_run _))].
Defined.

(** ** Exact floating-point computations *)

Lemma iter_pos_nat {A : Type} (f : A -> A) (p : positive) (x : A) :
  iter_pos f p x = Nat.iter (Pos.to_nat p) f x.
Proof.
  revert x. induction p as [p IH|p IH|]; intros x; cbn [iter_pos].
  - rewrite !IH, Pos2Nat.inj_xI, Nat.iter_succ_r.
    replace (2 * Pos.to_nat p)%nat
      with (Pos.to_nat p + Pos.to_nat p)%nat by lia.
    now rewrite Nat.iter_add.
  - rewrite !IH, Pos2Nat.inj_xO.
    replace (2 * Pos.to_nat p)%nat
      with (Pos.to_nat p + Pos.to_nat p)%nat by lia.
    now rewrite Nat.iter_add.
  - reflexivity.
Qed.

Lemma Pos_iter_xO (m d : positive) :
  Zpos (Pos.iter xO m d) = Zpos m * 2 ^ Zpos d.
Proof.
  induction d as [|d IH] using Pos.peano_ind.
  - simpl. lia.
  - rewrite Pos.iter_succ, Pos2Z.inj_xO, IH, Pos2Z.inj_succ, Z.pow_succ_r by lia.
    lia.
Qed.

Lemma Zdigits2_log2 (m : positive) : Zdigits2 (Zpos m) = Z.log2 (Zpos m) + 1.
Proof.
  simpl Zdigits2. induction m as [m IH|m IH|].
  - cbn [digits2_pos]. rewrite Pos2Z.inj_succ, IH.
    rewrite Pos2Z.inj_xI, Z.log2_succ_double by lia. lia.
  - cbn [digits2_pos]. rewrite Pos2Z.inj_succ, IH.
    rewrite Pos2Z.inj_xO, Z.log2_double by lia. lia.
  - reflexivity.
Qed.

Lemma Zdigits2_bounds (v : Z) :
  0 < v -> 2 ^ (Zdigits2 v - 1) <= v < 2 ^ Zdigits2 v.
Proof.
  intros H. destruct v as [|m|m]; try lia.
  rewrite Zdigits2_log2.
  replace (Z.log2 (Z.pos m) + 1 - 1) with (Z.log2 (Z.pos m)) by lia.
  replace (Z.log2 (Z.pos m) + 1) with (Z.succ (Z.log2 (Z.pos m))) by lia.
  apply Z.log2_spec. lia.
Qed.

Lemma Zdigits2_unique (v d : Z) :
  0 < d -> 2 ^ (d - 1) <= v < 2 ^ d -> Zdigits2 v = d.
Proof.
  intros Hd H.
  assert (0 < v) by (pose proof (Z.pow_pos_nonneg 2 (d - 1)); lia).
  destruct v as [|m|m]; try lia.
  rewrite Zdigits2_log2.
  rewrite (Z.log2_unique (Z.pos m) (d - 1)); try lia.
  replace (Z.succ (d - 1)) with d by lia. exact H.
Qed.

Lemma Zdigits2_mul_pow2 (v j : Z) :
  0 < v -> 0 <= j -> Zdigits2 (v * 2 ^ j) = Zdigits2 v + j.
Proof.
  intros Hv Hj. pose proof (Zdigits2_bounds v Hv) as [H1 H2].
  assert (0 < Zdigits2 v) by (destruct v; simpl; lia).
  apply Zdigits2_unique; [lia|].
  replace (Zdigits2 v + j - 1) with (Zdigits2 v - 1 + j) by lia.
  rewrite !Z.pow_add_r by lia.
  pose proof (Z.pow_pos_nonneg 2 j). nia.
Qed.

Lemma shr_1_nonneg (m : Z) (r s : bool) :
  0 <= m ->
  shr_1 {| shr_m := m; shr_r := r; shr_s := s |} =
  {| shr_m := m / 2; shr_r := Z.odd m; shr_s := r || s |}.
Proof.
  intros H. rewrite <- Z.div2_div.
  destruct m as [|[p|p|]|p]; try lia; reflexivity.
Qed.

Lemma shr_iter (t : nat) (m : Z) :
  0 <= m ->
  Nat.iter (S t) shr_1 {| shr_m := m; shr_r := false; shr_s := false |} =
  {| shr_m := m / 2 ^ Z.of_nat (S t);
     shr_r := Z.testbit m (Z.of_nat t);
     shr_s := negb (m mod 2 ^ Z.of_nat t =? 0) |}.
Proof.
  intros Hm. induction t as [|t IH].
  - change (Nat.iter 1 shr_1 ?x) with (shr_1 x).
    rewrite shr_1_nonneg by exact Hm.
    simpl Z.of_nat. rewrite Z.bit0_odd, Z.mod_1_r. reflexivity.
  - rewrite Nat.iter_succ, IH.
    assert (Hp : 0 < 2 ^ Z.of_nat (S t)) by (apply Z.pow_pos_nonneg; lia).
    rewrite shr_1_nonneg by (apply Z.div_pos; lia).
    f_equal.
    + rewrite Z.div_div by lia.
      rewrite (Nat2Z.inj_succ (S t)), Z.pow_succ_r by lia. f_equal. lia.
    + rewrite Z.testbit_odd, Z.shiftr_div_pow2 by lia. reflexivity.
    + rewrite (Nat2Z.inj_succ t), Z.pow_succ_r by lia.
      rewrite Z.mul_comm, Z.rem_mul_r by lia.
      rewrite <- (Z.testbit_spec' m (Z.of_nat t)) by lia.
      pose proof (Z.mod_pos_bound m (2 ^ Z.of_nat t) ltac:(lia)) as Hr.
      destruct (Z.testbit m (Z.of_nat t)); cbn [Z.b2z orb].
      * symmetry. apply negb_true_iff, Z.eqb_neq. lia.
      * now rewrite Z.mul_0_r, Z.add_0_r.
Qed.

Lemma fexp_normal (x : Z) : -1021 <= x -> fexp prec emax x = x - 53.
Proof. unfold fexp, emin, prec, emax. lia. Qed.

Lemma shr_fexp_none (m : positive) (e : Z) (l : location) :
  Zdigits2 (Zpos m) <= 53 -> -1021 <= Zdigits2 (Zpos m) + e ->
  shr_fexp prec emax (Zpos m) e l = (shr_record_of_loc (Zpos m) l, e).
Proof.
  intros Hd Hn. unfold shr_fexp. rewrite fexp_normal by exact Hn.
  unfold shr.
  destruct (Zdigits2 (Z.pos m) + e - 53 - e) eqn:E; try reflexivity. lia.
Qed.

Lemma round_aux_keep (m : positive) (e : Z) :
  Zdigits2 (Zpos m) <= 53 -> -1021 <= Zdigits2 (Zpos m) + e -> e <= 971 ->
  binary_round_aux prec emax false (Zpos m) e loc_Exact = S754_finite false m e.
Proof.
  intros Hd Hn He. unfold binary_round_aux.
  rewrite shr_fexp_none by assumption.
  cbn [shr_record_of_loc shr_m loc_of_shr_record round_nearest_even].
  rewrite shr_fexp_none by assumption.
  cbn [shr_record_of_loc shr_m].
  replace (e <=? emax - prec) with true; [reflexivity|].
  symmetry. apply Z.leb_le. unfold emax, prec. lia.
Qed.

Lemma round_aux_shift (m : positive) (e : Z) :
  let d := Zdigits2 (Zpos m) in
  53 < d -> -1021 <= d + e -> e + d - 53 <= 971 ->
  Z.testbit (Zpos m) (d - 54) = false ->
  binary_round_aux prec emax false (Zpos m) e loc_Exact =
  S754_finite false (Z.to_pos (Zpos m / 2 ^ (d - 53))) (e + d - 53).
Proof.
  intros d Hd Hn He Hbit.
  pose proof (Zdigits2_bounds (Zpos m) ltac:(lia)) as [Hlo Hhi]. fold d in Hlo, Hhi.
  set (t := d - 53) in *.
  assert (Hq : 2 ^ 52 <= Zpos m / 2 ^ t < 2 ^ 53).
  { assert (Ht : 0 < 2 ^ t) by (apply Z.pow_pos_nonneg; lia).
    replace (d - 1) with (52 + t) in Hlo by lia.
    replace d with (53 + t) in Hhi by lia.
    rewrite Z.pow_add_r in Hlo, Hhi by lia.
    split.
    - apply Z.div_le_lower_bound; lia.
    - apply Z.div_lt_upper_bound; lia. }
  destruct (Zpos m / 2 ^ t) as [|m'|m'] eqn:Em'; try lia.
  assert (Hd' : Zdigits2 (Zpos m') = 53) by (apply Zdigits2_unique; lia).
  unfold binary_round_aux.
  assert (Hs : shr_fexp prec emax (Zpos m) e loc_Exact =
               ({| shr_m := Zpos m'; shr_r := false;
                   shr_s := negb (Zpos m mod 2 ^ (t - 1) =? 0) |}, e + t)).
  { unfold shr_fexp. fold d. rewrite fexp_normal by exact Hn.
    replace (d + e - 53 - e) with t by lia.
    unfold shr. destruct t as [|p|p] eqn:Et; try lia.
    rewrite iter_pos_nat.
    destruct (Pos.to_nat p) as [|t'] eqn:Ep; [lia|].
    cbn [shr_record_of_loc]. rewrite shr_iter by lia.
    replace (Z.of_nat (S t')) with (Zpos p) by lia.
    replace (Z.of_nat t') with (Zpos p - 1) by lia.
    rewrite Em'. f_equal. f_equal.
    rewrite <- Hbit. f_equal. lia. }
  rewrite Hs. cbn [shr_m].
  assert (Hr : round_nearest_even (Zpos m')
                 (loc_of_shr_record
                    {| shr_m := Zpos m'; shr_r := false;
                       shr_s := negb (Zpos m mod 2 ^ (t - 1) =? 0) |})
               = Zpos m').
  { now destruct (negb _). }
  rewrite Hr.
  rewrite shr_fexp_none by lia.
  cbn [shr_record_of_loc shr_m].
  replace (e + t <=? emax - prec) with true.
  - f_equal. lia.
  - symmetry. apply Z.leb_le. unfold emax, prec. lia.
Qed.

(** Rounding [v * 2^j * 2^e], for [v] of at most 53 bits, is exact. *)
Lemma binary_round_exact (m : positive) (v j e : Z) :
  Zpos m = v * 2 ^ j -> 0 < v -> 0 <= j -> Zdigits2 v <= 53 ->
  -1021 <= Zdigits2 v + j + e -> e + j + Zdigits2 v - 53 <= 971 ->
  binary_round prec emax false m e = canon v (e + j).
Proof.
  intros Hm Hv Hj Hd Hn He.
  assert (Hdm : Zdigits2 (Zpos m) = Zdigits2 v + j)
    by (rewrite Hm; now apply Zdigits2_mul_pow2).
  assert (Hdv : 0 < Zdigits2 v) by (destruct v; simpl; lia).
  unfold binary_round, canon.
  change (Z.pos (digits2_pos m)) with (Zdigits2 (Zpos m)).
  rewrite fexp_normal by lia. unfold shl_align.
  destruct (Zdigits2 (Z.pos m) + e - 53 - e) as [|p|p] eqn:E.
  - rewrite round_aux_keep by lia. f_equal; [|lia].
    replace (53 - Zdigits2 v) with j by lia. now rewrite <- Hm.
  - pose proof (round_aux_shift m e) as H. cbv zeta in H.
    assert (Hp : 0 < 2 ^ (Zdigits2 v + j - 53)) by (apply Z.pow_pos_nonneg; lia).
    rewrite H; try lia.
    + f_equal; [|lia]. f_equal. rewrite Hdm, Hm.
      replace j with ((53 - Zdigits2 v) + (Zdigits2 v + j - 53)) at 1 by lia.
      rewrite Z.pow_add_r, Z.mul_assoc by lia.
      now rewrite Z.div_mul by lia.
    + rewrite Hdm, Hm. apply Z.mul_pow2_bits_low. lia.
  - change (Z.pos (Pos.iter xO m p)) with (Zpos (Pos.iter xO m p)).
    assert (Hm' : Zpos (Pos.iter xO m p) = v * 2 ^ (53 - Zdigits2 v)).
    { rewrite Pos_iter_xO, Hm, <- Z.mul_assoc, <- Z.pow_add_r by lia.
      f_equal. f_equal. lia. }
    assert (Hd' : Zdigits2 (Zpos (Pos.iter xO m p)) = 53).
    { rewrite Hm', Zdigits2_mul_pow2 by lia. lia. }
    rewrite round_aux_keep by lia.
    f_equal; [|lia]. now rewrite <- Hm'.
Qed.

Lemma Zdigits2_pos (v : Z) : 0 < v -> 0 < Zdigits2 v.
Proof. destruct v; simpl; lia. Qed.

Lemma canon_mantissa (v : Z) :
  0 < v -> Zdigits2 v <= 53 ->
  Zpos (Z.to_pos (v * 2 ^ (53 - Zdigits2 v))) = v * 2 ^ (53 - Zdigits2 v).
Proof.
  intros Hv Hd. apply Z2Pos.id.
  pose proof (Z.pow_pos_nonneg 2 (53 - Zdigits2 v)). nia.
Qed.

Lemma canon_mantissa_digits (v : Z) :
  0 < v -> Zdigits2 v <= 53 ->
  Zdigits2 (Zpos (Z.to_pos (v * 2 ^ (53 - Zdigits2 v)))) = 53.
Proof.
  intros Hv Hd. rewrite canon_mantissa, Zdigits2_mul_pow2 by lia. lia.
Qed.

Lemma ofZ_canon (v j : Z) :
  0 < v -> 0 <= j -> Zdigits2 v <= 53 -> j + Zdigits2 v - 53 <= 971 ->
  ofZ (v * 2 ^ j) = canon v j.
Proof.
  intros Hv Hj Hd He. pose proof (Zdigits2_pos v Hv).
  assert (Hp : 0 < v * 2 ^ j) by (pose proof (Z.pow_pos_nonneg 2 j); nia).
  unfold ofZ, binary_normalize.
  destruct (v * 2 ^ j) as [|m|m] eqn:E; try lia.
  rewrite (binary_round_exact m v j 0) by lia. reflexivity.
Qed.

Lemma ofZ_canon_int (v : Z) :
  0 < v -> Zdigits2 v <= 53 -> ofZ v = canon v 0.
Proof.
  intros Hv Hd. pose proof (Zdigits2_pos v Hv).
  rewrite <- (ofZ_canon v 0) by lia. now rewrite Z.mul_1_r.
Qed.

Lemma binary_round_wide (m : positive) (e : Z) :
  53 <= Zdigits2 (Zpos m) -> -1021 <= Zdigits2 (Zpos m) + e ->
  binary_round prec emax false m e =
  binary_round_aux prec emax false (Zpos m) e loc_Exact.
Proof.
  intros Hd Hn. unfold binary_round.
  change (Z.pos (digits2_pos m)) with (Zdigits2 (Zpos m)).
  rewrite fexp_normal by lia. unfold shl_align.
  destruct (Zdigits2 (Z.pos m) + e - 53 - e) as [|p|p] eqn:E;
    try reflexivity. lia.
Qed.

Lemma round_aux_exact (m : positive) (v j e : Z) :
  Zpos m = v * 2 ^ j -> 0 < v -> 0 <= j ->
  Zdigits2 v <= 53 -> 53 <= Zdigits2 v + j ->
  -1021 <= Zdigits2 v + j + e -> e + j + Zdigits2 v - 53 <= 971 ->
  binary_round_aux prec emax false (Zpos m) e loc_Exact = canon v (e + j).
Proof.
  intros Hm Hv Hj Hd Hw Hn He.
  assert (Hdm : Zdigits2 (Zpos m) = Zdigits2 v + j)
    by (rewrite Hm; now apply Zdigits2_mul_pow2).
  rewrite <- binary_round_wide by lia.
  now apply binary_round_exact.
Qed.

Lemma shl_align_fst (m : positive) (e ez : Z) :
  ez <= e -> Zpos (fst (shl_align m e ez)) = Zpos m * 2 ^ (e - ez).
Proof.
  intros H. unfold shl_align.
  destruct (ez - e) as [|p|p] eqn:E; try lia; cbn [fst].
  - replace (e - ez) with 0 by lia. lia.
  - rewrite Pos_iter_xO. f_equal. f_equal. lia.
Qed.

(** Addition of positive integers below 2^53 is exact. *)
Lemma add_canon (a b : Z) :
  0 < a -> 0 < b -> Zdigits2 (a + b) <= 53 ->
  add (canon a 0) (canon b 0) = canon (a + b) 0.
Proof.
  intros Ha Hb Hd.
  pose proof (Zdigits2_pos a Ha). pose proof (Zdigits2_pos b Hb).
  pose proof (Zdigits2_bounds a Ha). pose proof (Zdigits2_bounds b Hb).
  pose proof (Zdigits2_bounds (a + b) ltac:(lia)).
  assert (Zdigits2 a <= Zdigits2 (a + b)).
  { destruct (Z_le_gt_dec (Zdigits2 a) (Zdigits2 (a + b))); [assumption|].
    assert (2 ^ Zdigits2 (a + b) <= 2 ^ (Zdigits2 a - 1))
      by (apply Z.pow_le_mono_r; lia). lia. }
  assert (Zdigits2 b <= Zdigits2 (a + b)).
  { destruct (Z_le_gt_dec (Zdigits2 b) (Zdigits2 (a + b))); [assumption|].
    assert (2 ^ Zdigits2 (a + b) <= 2 ^ (Zdigits2 b - 1))
      by (apply Z.pow_le_mono_r; lia). lia. }
  unfold add, canon at 1 2, SFadd. cbn [cond_Zopp].
  set (ez := Z.min (0 + Zdigits2 a - 53) (0 + Zdigits2 b - 53)).
  assert (Hez : ez <= 0) by lia.
  rewrite <- Pos2Z.inj_add. unfold binary_normalize.
  replace (canon (a + b) 0) with (canon (a + b) (ez + - ez))
    by (f_equal; lia).
  apply (binary_round_exact _ (a + b) (- ez) ez); try lia.
  rewrite Pos2Z.inj_add, !shl_align_fst, !canon_mantissa by lia.
  rewrite <- !Z.mul_assoc, <- !Z.pow_add_r by lia.
  replace (53 - Zdigits2 a + (0 + Zdigits2 a - 53 - ez)) with (- ez) by lia.
  replace (53 - Zdigits2 b + (0 + Zdigits2 b - 53 - ez)) with (- ez) by lia.
  lia.
Qed.

Lemma Zdigits2_mul_lower (a b : Z) :
  0 < a -> 0 < b -> Zdigits2 a + Zdigits2 b - 1 <= Zdigits2 (a * b).
Proof.
  intros Ha Hb.
  pose proof (Zdigits2_pos a Ha). pose proof (Zdigits2_pos b Hb).
  pose proof (Zdigits2_bounds a Ha) as [Ha1 _].
  pose proof (Zdigits2_bounds b Hb) as [Hb1 _].
  pose proof (Zdigits2_bounds (a * b) ltac:(nia)) as [_ Hab].
  destruct (Z_le_gt_dec (Zdigits2 a + Zdigits2 b - 1) (Zdigits2 (a * b)));
    [assumption|].
  assert (2 ^ Zdigits2 (a * b) <= 2 ^ (Zdigits2 a - 1 + (Zdigits2 b - 1)))
    by (apply Z.pow_le_mono_r; lia).
  rewrite Z.pow_add_r in * by lia.
  pose proof (Z.pow_pos_nonneg 2 (Zdigits2 a - 1)).
  pose proof (Z.pow_pos_nonneg 2 (Zdigits2 b - 1)). nia.
Qed.

Lemma Zdigits2_mul_upper (a b : Z) :
  0 < a -> 0 < b -> Zdigits2 (a * b) <= Zdigits2 a + Zdigits2 b.
Proof.
  intros Ha Hb.
  pose proof (Zdigits2_pos a Ha). pose proof (Zdigits2_pos b Hb).
  pose proof (Zdigits2_bounds a Ha) as [_ Ha1].
  pose proof (Zdigits2_bounds b Hb) as [_ Hb1].
  pose proof (Zdigits2_pos (a * b) ltac:(nia)).
  pose proof (Zdigits2_bounds (a * b) ltac:(nia)) as [Hab _].
  destruct (Z_le_gt_dec (Zdigits2 (a * b)) (Zdigits2 a + Zdigits2 b));
    [assumption|].
  assert (2 ^ (Zdigits2 a + Zdigits2 b) <= 2 ^ (Zdigits2 (a * b) - 1))
    by (apply Z.pow_le_mono_r; lia).
  rewrite Z.pow_add_r in * by lia. nia.
Qed.

(** A product that fits in 53 bits is exact. *)
Lemma mul_canon (a b ea eb : Z) :
  0 < a -> 0 < b -> Zdigits2 (a * b) <= 53 ->
  -1021 <= Zdigits2 (a * b) + ea + eb ->
  ea + eb + Zdigits2 (a * b) - 53 <= 971 ->
  mul (canon a ea) (canon b eb) = canon (a * b) (ea + eb).
Proof.
  intros Ha Hb Hd Hn He.
  pose proof (Zdigits2_pos a Ha). pose proof (Zdigits2_pos b Hb).
  pose proof (Zdigits2_mul_lower a b Ha Hb).
  pose proof (Zdigits2_mul_upper a b Ha Hb).
  assert (Hda : Zdigits2 a <= 53) by lia.
  assert (Hdb : Zdigits2 b <= 53) by lia.
  unfold mul, canon at 1 2, SFmul. cbn [xorb].
  set (J := 106 - Zdigits2 a - Zdigits2 b).
  replace (canon (a * b) (ea + eb))
    with (canon (a * b) (ea + Zdigits2 a - 53 + (eb + Zdigits2 b - 53) + J))
    by (f_equal; lia).
  apply round_aux_exact; try lia.
  rewrite Pos2Z.inj_mul, !canon_mantissa by lia.
  replace J with ((53 - Zdigits2 a) + (53 - Zdigits2 b)) by lia.
  rewrite Z.pow_add_r by lia. ring.
Qed.

(** An exact quotient is computed exactly. *)
Lemma div_canon (a b e1 e2 : Z) :
  0 < a -> 0 < b -> Zdigits2 (a * b) <= 53 ->
  -968 <= e1 - e2 ->
  e1 - e2 + Zdigits2 a - 53 <= 971 ->
  div (canon (a * b) e1) (canon b e2) = canon a (e1 - e2).
Proof.
  intros Ha Hb Hd Hn He.
  pose proof (Zdigits2_pos a Ha). pose proof (Zdigits2_pos b Hb).
  pose proof (Zdigits2_mul_lower a b Ha Hb).
  pose proof (Zdigits2_mul_upper a b Ha Hb).
  assert (Hab : 0 < a * b) by nia.
  assert (Hda : Zdigits2 a <= 53) by lia.
  assert (Hdb : Zdigits2 b <= 53) by lia.
  unfold div, canon at 1 2, SFdiv, SFdiv_core_binary. cbn [xorb].
  rewrite !canon_mantissa_digits by lia.
  set (ex := e1 + Zdigits2 (a * b) - 53).
  set (ey := e2 + Zdigits2 b - 53).
  rewrite fexp_normal by lia.
  replace (Z.min (53 + ex - (53 + ey) - 53) (ex - ey)) with (ex - ey - 53)
    by lia.
  replace (ex - ey - (ex - ey - 53)) with 53 by lia.
  rewrite !canon_mantissa by lia.
  set (J := 53 + Zdigits2 b - Zdigits2 (a * b)).
  assert (Hq : Z.shiftl (a * b * 2 ^ (53 - Zdigits2 (a * b))) 53
               = (a * 2 ^ J) * (b * 2 ^ (53 - Zdigits2 b))).
  { rewrite Z.shiftl_mul_pow2 by lia. unfold J.
    replace (a * 2 ^ (53 + Zdigits2 b - Zdigits2 (a * b))
             * (b * 2 ^ (53 - Zdigits2 b)))
      with (a * b * (2 ^ (53 + Zdigits2 b - Zdigits2 (a * b))
                     * 2 ^ (53 - Zdigits2 b))) by ring.
    rewrite <- Z.mul_assoc, <- !Z.pow_add_r by lia.
    f_equal. f_equal. lia. }
  rewrite Hq.
  assert (Hbpos : 0 < b * 2 ^ (53 - Zdigits2 b))
    by (pose proof (Z.pow_pos_nonneg 2 (53 - Zdigits2 b)); nia).
  assert (Hdiv : Z.div_eucl (a * 2 ^ J * (b * 2 ^ (53 - Zdigits2 b)))
                   (b * 2 ^ (53 - Zdigits2 b)) = (a * 2 ^ J, 0)).
  { pose proof (Z_div_mod (a * 2 ^ J * (b * 2 ^ (53 - Zdigits2 b)))
                  (b * 2 ^ (53 - Zdigits2 b)) ltac:(lia)) as Hdm.
    destruct (Z.div_eucl _ _) as [q r] eqn:E.
    assert (q = a * 2 ^ J /\ r = 0) as [-> ->]; [|reflexivity].
    assert (Hqq : q = (a * 2 ^ J * (b * 2 ^ (53 - Zdigits2 b)))
                      / (b * 2 ^ (53 - Zdigits2 b)))
      by (unfold Z.div; now rewrite E).
    rewrite Z.div_mul in Hqq by lia. nia. }
  rewrite Hdiv.
  assert (Hloc : new_location (b * 2 ^ (53 - Zdigits2 b)) 0 = loc_Exact).
  { unfold new_location, new_location_even, new_location_odd.
    now destruct (Z.even _). }
  rewrite Hloc.
  assert (HJ : 0 < a * 2 ^ J)
    by (pose proof (Z.pow_pos_nonneg 2 J); unfold J in *; nia).
  destruct (a * 2 ^ J) as [|m|m] eqn:Em; try lia.
  replace (canon a (e1 - e2)) with (canon a (ex - ey - 53 + J))
    by (f_equal; unfold ex, ey, J; lia).
  apply round_aux_exact; unfold ex, ey, J in *; lia.
Qed.

(** [Math.round] leaves an integer unchanged. *)
Lemma round_canon (v e : Z) :
  0 < v -> 0 <= e -> Zdigits2 v <= 53 -> e + Zdigits2 v - 53 <= 971 ->
  round (canon v e) = canon v e.
Proof.
  intros Hv He Hd Hr. pose proof (Zdigits2_pos v Hv).
  unfold round, canon at 1.
  destruct (0 <=? e + Zdigits2 v - 53) eqn:E; [reflexivity|].
  apply Z.leb_gt in E. cbn [cond_Zopp].
  rewrite canon_mantissa by lia.
  set (k := - (e + Zdigits2 v - 53)).
  assert (Hk : 0 < k) by lia.
  replace (53 - Zdigits2 v) with (e + k) by lia.
  replace (1 - (e + Zdigits2 v - 53)) with (k + 1) by lia.
  rewrite Z.shiftr_div_pow2 by lia.
  replace (2 * (v * 2 ^ (e + k)) + 2 ^ k)
    with ((2 * (v * 2 ^ e) + 1) * 2 ^ k)
    by (rewrite Z.pow_add_r by lia; ring).
  rewrite (Z.pow_add_r 2 k 1), (Z.mul_comm (2 ^ k)) by lia.
  rewrite Z.div_mul_cancel_r by (try apply Z.pow_nonzero; lia).
  change (2 ^ 1) with 2.
  replace ((2 * (v * 2 ^ e) + 1) / 2) with (v * 2 ^ e).
  - apply ofZ_canon; lia.
  - replace (2 * (v * 2 ^ e) + 1) with (v * 2 ^ e * 2 + 1) by ring.
    rewrite Z.div_add_l by lia. change (1 / 2) with 0. lia.
Qed.

(** Adding [Number.EPSILON] to an integer from 4 to 2^53 changes nothing:
    2^-52 is below half a unit in the last place. *)
Lemma add_EPSILON (n : Z) :
  0 < n -> 3 <= Zdigits2 n <= 53 -> add (canon n 0) EPSILON = canon n 0.
Proof.
  intros Hn Hd. pose proof (Zdigits2_bounds n Hn) as [Hlo Hhi].
  set (d := Zdigits2 n) in *.
  unfold add, EPSILON, canon at 1, SFadd. fold d. cbn [cond_Zopp].
  replace (Z.min (0 + d - 53) (-104)) with (-104) by lia.
  rewrite <- Pos2Z.inj_add. unfold binary_normalize.
  set (S := (fst (shl_align (Z.to_pos (n * 2 ^ (53 - d))) (0 + d - 53) (-104))
             + fst (shl_align 4503599627370496 (-104) (-104)))%positive).
  assert (HS : Zpos S = n * 2 ^ 104 + 2 ^ 52).
  { unfold S. rewrite Pos2Z.inj_add, !shl_align_fst by lia.
    unfold d. rewrite canon_mantissa by (fold d; lia). fold d.
    rewrite <- Z.mul_assoc, <- Z.pow_add_r by lia.
    replace (53 - d + (0 + d - 53 - -104)) with 104 by lia.
    reflexivity. }
  assert (Hd104 : 2 ^ (d + 104) = 2 ^ d * 2 ^ 104)
    by (apply Z.pow_add_r; lia).
  assert (Hd103 : 2 ^ (d + 104 - 1) = 2 ^ (d - 1) * 2 ^ 104)
    by (replace (d + 104 - 1) with (d - 1 + 104) by lia;
        apply Z.pow_add_r; lia).
  assert (HdS : Zdigits2 (Zpos S) = d + 104).
  { apply Zdigits2_unique; [lia|]. rewrite HS, Hd104, Hd103.
    change (2 ^ 104) with 20282409603651670423947251286016.
    change (2 ^ 52) with 4503599627370496. lia. }
  rewrite binary_round_wide by lia.
  pose proof (round_aux_shift S (-104)) as H. cbv zeta in H.
  rewrite HdS in H. rewrite H; try lia.
  - unfold canon. fold d. f_equal; [|lia]. f_equal.
    rewrite HS.
    replace (n * 2 ^ 104) with (n * 2 ^ (53 - d) * 2 ^ (d + 104 - 53))
      by (rewrite <- Z.mul_assoc, <- Z.pow_add_r by lia; f_equal; f_equal; lia).
    rewrite Z.div_add_l by (apply Z.pow_nonzero; lia).
    rewrite Z.div_small; [lia|].
    split; [lia|]. apply Z.pow_lt_mono_r; lia.
  - rewrite HS. apply Z.testbit_false; [lia|].
    replace (n * 2 ^ 104)
      with (n * 2 ^ (104 - (d + 104 - 54) - 1) * 2 * 2 ^ (d + 104 - 54)).
    + rewrite Z.div_add_l by (apply Z.pow_nonzero; lia).
      rewrite Z.div_small by (split; [lia | apply Z.pow_lt_mono_r; lia]).
      rewrite Z.add_0_r. apply Z.mod_mul. lia.
    + rewrite <- !Z.mul_assoc. f_equal.
      rewrite <- (Z.pow_succ_r 2 (d + 104 - 54)) by lia.
      rewrite <- Z.pow_add_r by lia. f_equal. lia.
Qed.

Lemma ten12_canon : ten12 = canon (5 ^ 12) 12.
Proof. reflexivity. Qed.

(** For the integers from 4 to 36893488 the formatting arithmetic is exact:
    what is displayed is [String] of the integer itself. *)
Lemma formatDisplayNumber_canon (n : Z) :
  4 <= n <= 36893488 ->
  formatDisplayNumber (canon n 0) = toString (canon n 0).
Proof.
  intros Hn.
  assert (H3 : 3 <= Zdigits2 n).
  { pose proof (Zdigits2_bounds n ltac:(lia)) as [_ Hhi].
    destruct (Z_le_gt_dec 3 (Zdigits2 n)); [assumption|].
    assert (2 ^ Zdigits2 n <= 2 ^ 2) by (apply Z.pow_le_mono_r; lia).
    change (2 ^ 2) with 4 in *. lia. }
  assert (H53 : Zdigits2 (n * 5 ^ 12) <= 53).
  { pose proof (Zdigits2_bounds (n * 5 ^ 12) ltac:(lia)) as [Hlo _].
    destruct (Z_le_gt_dec (Zdigits2 (n * 5 ^ 12)) 53); [assumption|].
    assert (2 ^ 53 <= 2 ^ (Zdigits2 (n * 5 ^ 12) - 1))
      by (apply Z.pow_le_mono_r; lia).
    change (2 ^ 53) with 9007199254740992 in *.
    change (5 ^ 12) with 244140625 in *. lia. }
  pose proof (Zdigits2_mul_lower n (5 ^ 12) ltac:(lia) ltac:(lia)) as Hml.
  change (Zdigits2 (5 ^ 12)) with 28 in Hml.
  pose proof (Zdigits2_pos (n * 5 ^ 12) ltac:(lia)).
  unfold formatDisplayNumber. cbn [canon isFinite negb].
  change (S754_finite false (Z.to_pos (n * 2 ^ (53 - Zdigits2 n)))
            (0 + Zdigits2 n - 53)) with (canon n 0).
  rewrite add_EPSILON by lia.
  rewrite ten12_canon.
  rewrite (mul_canon n (5 ^ 12) 0 12) by lia.
  rewrite round_canon by lia.
  rewrite (div_canon n (5 ^ 12) (0 + 12) 12) by lia.
  reflexivity.
Qed.

(** ** The text of an integer *)

Lemma Zdigits2_le (v d : Z) : 0 < v -> 0 <= d -> v < 2 ^ d -> Zdigits2 v <= d.
Proof.
  intros Hv Hd H. pose proof (Zdigits2_bounds v Hv) as [Hlo _].
  destruct (Z_le_gt_dec (Zdigits2 v) d); [assumption|].
  assert (2 ^ d <= 2 ^ (Zdigits2 v - 1)) by (apply Z.pow_le_mono_r; lia).
  lia.
Qed.

Lemma Zdigits2_53 (v : Z) : 0 < v <= 10 ^ 15 -> Zdigits2 v <= 50.
Proof.
  intros H. apply Zdigits2_le; lia.
Qed.

Lemma SFeqb_finite (m1 m2 : positive) (e1 e2 : Z) :
  SFeqb (S754_finite false m1 e1) (S754_finite false m2 e2)
  = (e1 =? e2) && (m1 =? m2)%positive.
Proof.
  unfold SFeqb, SFcompare. rewrite Z.eqb_compare.
  destruct (e1 ?= e2); try reflexivity.
  change (Pos.compare_cont Eq m1 m2) with (Pos.compare m1 m2).
  rewrite Pos.eqb_compare. now destruct (m1 ?= m2)%positive.
Qed.

Lemma SFeqb_canon (a b : Z) :
  0 < a -> 0 < b -> Zdigits2 a <= 53 -> Zdigits2 b <= 53 ->
  SFeqb (canon a 0) (canon b 0) = (a =? b).
Proof.
  intros Ha Hb Hda Hdb. unfold canon. rewrite SFeqb_finite.
  destruct (Z.eqb_spec a b) as [->|Hne].
  - rewrite Z.eqb_refl, Pos.eqb_refl. reflexivity.
  - destruct (Z.eqb_spec (0 + Zdigits2 a - 53) (0 + Zdigits2 b - 53))
      as [E|E]; [|reflexivity].
    destruct (Pos.eqb_spec (Z.to_pos (a * 2 ^ (53 - Zdigits2 a)))
                (Z.to_pos (b * 2 ^ (53 - Zdigits2 b)))) as [E'|E'];
      [|reflexivity].
    exfalso. apply Hne.
    assert (Hd : Zdigits2 a = Zdigits2 b) by lia.
    assert (E2 : a * 2 ^ (53 - Zdigits2 a) = b * 2 ^ (53 - Zdigits2 b))
      by (rewrite <- (canon_mantissa a Ha Hda), <- (canon_mantissa b Hb Hdb);
          now rewrite E').
    rewrite Hd in E2.
    pose proof (Z.pow_pos_nonneg 2 (53 - Zdigits2 b)). nia.
Qed.

Lemma roundtrips_canon (n s j : Z) :
  0 < n -> Zdigits2 n <= 53 -> 0 < s -> 0 <= j ->
  Zdigits2 (s * 10 ^ j) <= 53 ->
  roundtrips (canon n 0) s j = (s * 10 ^ j =? n).
Proof.
  intros Hn Hdn Hs Hj Hd.
  assert (Hp : 0 < 10 ^ j) by (apply Z.pow_pos_nonneg; lia).
  destruct s as [|sp|sp]; try lia.
  unfold roundtrips, of_decimal.
  replace (0 <=? j) with true by (symmetry; apply Z.leb_le; lia).
  rewrite (binary_round_exact _ (Zpos sp * 10 ^ j) 0 0); try lia.
  - apply SFeqb_canon; lia.
  - rewrite Pos2Z.inj_mul, Z2Pos.id by lia. lia.
  - pose proof (Zdigits2_pos (Zpos sp * 10 ^ j) ltac:(lia)). lia.
Qed.

Lemma count_digits_spec (fuel : nat) (z : Z) :
  0 < z -> z < 10 * 2 ^ Z.of_nat fuel ->
  10 ^ (Z.of_nat (count_digits fuel z) - 1) <= z
  < 10 ^ Z.of_nat (count_digits fuel z).
Proof.
  revert z. induction fuel as [|f IH]; intros z Hz Hb.
  - simpl in *. lia.
  - cbn [count_digits]. destruct (z <? 10) eqn:E.
    + apply Z.ltb_lt in E. simpl. lia.
    + apply Z.ltb_ge in E.
      assert (Hq : 0 < z / 10) by (apply Z.div_str_pos; lia).
      assert (Hb' : z / 10 < 10 * 2 ^ Z.of_nat f).
      { rewrite Nat2Z.inj_succ, Z.pow_succ_r in Hb by lia.
        apply Z.div_lt_upper_bound; lia. }
      specialize (IH (z / 10) Hq Hb').
      set (c := count_digits f (z / 10)) in *.
      assert (Hc : 0 < Z.of_nat c).
      { destruct c; [|lia]. simpl in IH. lia. }
      rewrite Nat2Z.inj_succ.
      replace (Z.succ (Z.of_nat c) - 1) with (Z.succ (Z.of_nat c - 1)) by lia.
      rewrite !Z.pow_succ_r by lia.
      pose proof (Z.div_mod z 10 ltac:(lia)).
      pose proof (Z.mod_pos_bound z 10 ltac:(lia)). lia.
Qed.

Lemma decimal_length_spec (n : Z) :
  0 < n ->
  let nd := Z.of_nat (count_digits (Z.to_nat (Z.log2 n)) n) in
  10 ^ (nd - 1) <= n < 10 ^ nd.
Proof.
  intros Hn. apply count_digits_spec; [exact Hn|].
  rewrite Z2Nat.id by apply Z.log2_nonneg.
  pose proof (Z.log2_spec n Hn) as [_ H].
  rewrite Z.pow_succ_r in H by apply Z.log2_nonneg. lia.
Qed.

Lemma digits_fixed_zeros (j : nat) (s : Z) :
  digits_fixed j (s * 10 ^ Z.of_nat j) = zeros j.
Proof.
  assert (H : forall (i : nat) (t : Z),
             digits_fixed i (t * 10 ^ Z.of_nat i) = zeros i).
  { induction i as [|i IH]; intros t; [reflexivity|].
    cbn [digits_fixed zeros]. f_equal.
    - rewrite Nat2Z.inj_succ, Z.pow_succ_r by lia.
      replace (t * (10 * 10 ^ Z.of_nat i)) with (t * 10 * 10 ^ Z.of_nat i)
        by ring.
      rewrite Z.div_mul by (apply Z.pow_nonzero; lia).
      now rewrite Z.mod_mul by lia.
    - rewrite Nat2Z.inj_succ, Z.pow_succ_r by lia.
      replace (t * (10 * 10 ^ Z.of_nat i)) with (t * 10 * 10 ^ Z.of_nat i)
        by ring.
      apply IH. }
  apply H.
Qed.

Lemma digits_fixed_shift (k j : nat) (s : Z) :
  digits_fixed (k + j) (s * 10 ^ Z.of_nat j)
  = digits_fixed k s ++ zeros j.
Proof.
  induction k as [|k IH].
  - apply digits_fixed_zeros.
  - cbn [Nat.add digits_fixed append]. f_equal; [|exact IH].
    f_equal. f_equal.
    rewrite Nat2Z.inj_add, Z.pow_add_r by lia.
    rewrite Z.div_mul_cancel_r; try (apply Z.pow_nonzero; lia). reflexivity.
Qed.

Lemma count_digits_positive (fuel : nat) (z : Z) :
  (1 <= count_digits fuel z)%nat.
Proof.
  destruct fuel as [|f]; simpl; [lia|]. destruct (z <? 10); lia.
Qed.

Section IntegerText.

Variable n : Z.
Hypothesis Hn : 0 < n < 10 ^ 15.

Lemma decimal_length_bounds :
  1 <= decimal_length n <= 15 /\
  10 ^ (decimal_length n - 1) <= n < 10 ^ decimal_length n.
Proof.
  pose proof (decimal_length_spec n ltac:(lia)) as H. cbv zeta in H.
  fold (decimal_length n) in H. split; [|exact H].
  pose proof (count_digits_positive (Z.to_nat (Z.log2 n)) n).
  split; [unfold decimal_length; lia|].
  destruct (Z_le_gt_dec (decimal_length n) 15); [assumption|].
  assert (10 ^ 15 <= 10 ^ (decimal_length n - 1))
    by (apply Z.pow_le_mono_r; lia).
  lia.
Qed.

Lemma try_digits_int (k : Z) :
  1 <= k <= decimal_length n ->
  try_digits (canon n 0) (n * 2 ^ (53 - Zdigits2 n)) (2 ^ (53 - Zdigits2 n))
    (decimal_length n) k =
  if n / 10 ^ (decimal_length n - k) * 10 ^ (decimal_length n - k) =? n
  then Some (n / 10 ^ (decimal_length n - k), decimal_length n) else None.
Proof.
  intros Hk. destruct decimal_length_bounds as [Hnd [Hlo Hhi]].
  set (nd := decimal_length n) in *.
  set (q := 2 ^ (53 - Zdigits2 n)). set (p := n * q).
  set (j := nd - k). assert (Hj : 0 <= j) by (unfold j; lia).
  pose proof (Zdigits2_53 n ltac:(lia)) as Hd50.
  assert (Hq : 0 < q) by (apply Z.pow_pos_nonneg; lia).
  assert (Hpj : 0 < 10 ^ j) by (apply Z.pow_pos_nonneg; lia).
  assert (Hpk : 10 ^ nd = 10 ^ k * 10 ^ j)
    by (rewrite <- Z.pow_add_r by lia; f_equal; unfold j; lia).
  assert (Hpk1 : 10 ^ (nd - 1) = 10 ^ (k - 1) * 10 ^ j)
    by (rewrite <- Z.pow_add_r by lia; f_equal; unfold j; lia).
  assert (H15 : 10 ^ nd <= 10 ^ 15) by (apply Z.pow_le_mono_r; lia).
  set (lo := n / 10 ^ j).
  assert (Hlo1 : 10 ^ (k - 1) <= lo).
  { apply Z.div_le_lower_bound; lia. }
  assert (Hlo2 : lo < 10 ^ k).
  { apply Z.div_lt_upper_bound; lia. }
  assert (Hlo0 : 0 < lo).
  { pose proof (Z.pow_pos_nonneg 10 (k - 1)). lia. }
  assert (Hle : lo * 10 ^ j <= n).
  { rewrite Z.mul_comm. apply Z.mul_div_le. lia. }
  assert (Hgt : n < (lo + 1) * 10 ^ j).
  { pose proof (Z.div_mod n (10 ^ j) ltac:(lia)).
    pose proof (Z.mod_pos_bound n (10 ^ j) ltac:(lia)).
    fold lo in H. lia. }
  assert (Hdn : Zdigits2 n <= 53) by lia.
  assert (Hscaled : fst (scaled p q (k - nd)) / snd (scaled p q (k - nd)) = lo).
  { unfold scaled. destruct (0 <=? k - nd) eqn:E; cbn [fst snd].
    - apply Z.leb_le in E. assert (j = 0) by (unfold j; lia).
      replace (k - nd) with 0 by lia. unfold lo, p. rewrite H.
      rewrite Z.mul_1_r, Z.div_1_r. apply Z.div_mul. lia.
    - replace (- (k - nd)) with j by (unfold j; lia).
      unfold p, lo. rewrite (Z.mul_comm q).
      apply Z.div_mul_cancel_r; lia. }
  unfold try_digits.
  destruct (scaled p q (k - nd)) as [num den] eqn:Es.
  cbn [fst snd] in Hscaled. rewrite Hscaled. fold j.
  rewrite (roundtrips_canon n lo j) by
    (try lia; apply Zdigits2_le; lia).
  assert (Hhi' : roundtrips (canon n 0)
                   (fst (if lo + 1 <? 10 ^ k then (lo + 1, nd)
                         else (10 ^ (k - 1), nd + 1)))
                   (snd (if lo + 1 <? 10 ^ k then (lo + 1, nd)
                         else (10 ^ (k - 1), nd + 1)) - k) = false).
  { destruct (lo + 1 <? 10 ^ k) eqn:E; cbn [fst snd].
    - apply Z.ltb_lt in E. fold j.
      rewrite roundtrips_canon; try lia.
      apply Zdigits2_le; nia.
    - apply Z.ltb_ge in E.
      replace (nd + 1 - k) with (j + 1) by (unfold j; lia).
      pose proof (Z.pow_pos_nonneg 10 (k - 1) ltac:(lia) ltac:(lia)).
      assert (Hv : 10 ^ (k - 1) * 10 ^ (j + 1) = 10 ^ nd).
      { rewrite <- Z.pow_add_r by lia. f_equal. unfold j. lia. }
      rewrite roundtrips_canon; try lia.
      rewrite Hv. apply Zdigits2_le; lia. }
  rewrite Hhi'.
  destruct (lo * 10 ^ j =? n); reflexivity.
Qed.

Lemma shortest_int (fuel : nat) (k : Z) :
  1 <= k <= decimal_length n -> decimal_length n - k < Z.of_nat fuel ->
  exists s k',
    shortest fuel (canon n 0) (n * 2 ^ (53 - Zdigits2 n))
      (2 ^ (53 - Zdigits2 n)) (decimal_length n) k
    = (s, decimal_length n, k') /\
    1 <= k' <= decimal_length n /\ s * 10 ^ (decimal_length n - k') = n.
Proof.
  revert k. induction fuel as [|f IH]; intros k Hk Hf; [lia|].
  cbn [shortest]. rewrite try_digits_int by exact Hk.
  set (nd := decimal_length n) in *.
  destruct (n / 10 ^ (nd - k) * 10 ^ (nd - k) =? n) eqn:E.
  - apply Z.eqb_eq in E. exists (n / 10 ^ (nd - k)), k. auto.
  - apply Z.eqb_neq in E.
    assert (k <> nd).
    { intros ->. apply E. rewrite Z.sub_diag. simpl.
      rewrite Z.div_1_r. lia. }
    apply IH; lia.
Qed.

(** [String] of a positive integer below 10^15 is its decimal numeral. *)
Lemma toString_canon_int : toString (canon n 0) = decimal n.
Proof.
  destruct decimal_length_bounds as [Hnd [Hlo Hhi]].
  pose proof (Zdigits2_53 n ltac:(lia)) as Hd.
  pose proof (Zdigits2_pos n ltac:(lia)) as Hd0.
  set (q := 2 ^ (53 - Zdigits2 n)). set (p := n * q).
  assert (Hq : 0 < q) by (apply Z.pow_pos_nonneg; lia).
  unfold canon, toString, toString_pos.
  replace (0 <=? 0 + Zdigits2 n - 53) with false
    by (symmetry; apply Z.leb_gt; lia).
  rewrite canon_mantissa by lia.
  replace (- (0 + Zdigits2 n - 53)) with (53 - Zdigits2 n) by lia.
  fold q. fold p.
  assert (Hm : magnitude10 p q = decimal_length n).
  { unfold magnitude10.
    replace (q <=? p) with true by (symmetry; apply Z.leb_le; unfold p; nia).
    unfold p. rewrite Z.div_mul by lia. reflexivity. }
  rewrite Hm.
  change (S754_finite false (Z.to_pos p) (0 + Zdigits2 n - 53))
    with (canon n 0).
  destruct (shortest_int 17 1 ltac:(lia) ltac:(lia))
    as (s & k & Hsh & Hk & Hs).
  fold q in Hsh. fold p in Hsh. rewrite Hsh.
  unfold format_digits.
  replace ((k <=? decimal_length n) && (decimal_length n <=? 21)) with true.
  - unfold decimal.
    replace (count_digits (Z.to_nat (Z.log2 n)) n)
      with (Z.to_nat k + Z.to_nat (decimal_length n - k))%nat
      by (unfold decimal_length in *; lia).
    rewrite <- (digits_fixed_shift (Z.to_nat k)
                  (Z.to_nat (decimal_length n - k)) s).
    f_equal. rewrite Z2Nat.id by lia. exact Hs.
  - symmetry. apply andb_true_intro. split; apply Z.leb_le; lia.
Qed.

End IntegerText.

(** ** Repeated Equals *)










(** Past 2^53 the repeated addition itself stops being exact: binary64 has
    no value for 2^53 + 3. *)
Lemma adding3_inexact_past_2_53 :
  add (ofZ (2 ^ 53)) (ofZ 3) = ofZ (2 ^ 53 + 4).
Proof. vm_compute. reflexivity. Qed.

(** ** Number formatting *)





(** ** Decimal numerals *)

Lemma digit_val_digit_char (d : Z) :
  0 <= d < 10 -> digit_val (digit_char d) = d.
Proof.
  intros H.
  assert (Hd : d = 0 \/ d = 1 \/ d = 2 \/ d = 3 \/ d = 4 \/ d = 5 \/
               d = 6 \/ d = 7 \/ d = 8 \/ d = 9) by lia.
  repeat (destruct Hd as [-> | Hd]; [reflexivity|]). now subst.
Qed.

Lemma decimal_length_unique (z c : Z) :
  0 < z -> 10 ^ (c - 1) <= z < 10 ^ c -> decimal_length z = c.
Proof.
  intros Hz [Hlo Hhi].
  pose proof (decimal_length_spec z Hz) as H. cbv zeta in H.
  fold (decimal_length z) in H. destruct H as [Hlo' Hhi'].
  assert (Hc : 0 < c).
  { destruct (Z_lt_le_dec 0 c); [assumption|].
    destruct (Z.eq_dec c 0) as [->|]; [simpl in Hhi; lia|].
    rewrite Z.pow_neg_r in Hhi by lia. lia. }
  assert (Hd : 0 < decimal_length z).
  { pose proof (count_digits_positive (Z.to_nat (Z.log2 z)) z).
    unfold decimal_length. lia. }
  destruct (Z.lt_trichotomy (decimal_length z) c) as [Hlt | [Heq | Hgt]];
    [|exact Heq|].
  - assert (10 ^ decimal_length z <= 10 ^ (c - 1))
      by (apply Z.pow_le_mono_r; lia). lia.
  - assert (10 ^ c <= 10 ^ (decimal_length z - 1))
      by (apply Z.pow_le_mono_r; lia). lia.
Qed.

Lemma decimal_eq (z : Z) :
  decimal z = digits_fixed (Z.to_nat (decimal_length z)) z.
Proof. unfold decimal, decimal_length. now rewrite Nat2Z.id. Qed.

Lemma digits_fixed_snoc (k : nat) (v d : Z) :
  0 <= v -> 0 <= d < 10 ->
  digits_fixed (S k) (10 * v + d)
  = digits_fixed k v ++ String (digit_char d) "".
Proof.
  intros Hv Hd. induction k as [|k IH].
  - cbn [digits_fixed append]. f_equal. f_equal.
    change (10 ^ Z.of_nat 0) with 1. rewrite Z.div_1_r.
    rewrite Z.mul_comm, Z.add_comm, Z.mod_add by lia.
    apply Z.mod_small. lia.
  - change (digits_fixed (S (S k)) (10 * v + d))
      with (String (digit_char (((10 * v + d) / 10 ^ Z.of_nat (S k)) mod 10))
              (digits_fixed (S k) (10 * v + d))).
    rewrite IH. cbn [digits_fixed append]. f_equal. f_equal. f_equal.
    rewrite Nat2Z.inj_succ, Z.pow_succ_r by lia.
    rewrite <- Z.div_div by (try apply Z.pow_pos_nonneg; lia).
    f_equal. rewrite Z.mul_comm, Z.div_add_l by lia.
    rewrite (Z.div_small d 10) by lia. lia.
Qed.

Lemma decimal_digit (d : Z) :
  0 <= d < 10 -> decimal d = String (digit_char d) "".
Proof.
  intros H.
  assert (Hd : d = 0 \/ d = 1 \/ d = 2 \/ d = 3 \/ d = 4 \/ d = 5 \/
               d = 6 \/ d = 7 \/ d = 8 \/ d = 9) by lia.
  repeat (destruct Hd as [-> | Hd]; [reflexivity|]). now subst.
Qed.

(** Appending a digit to the numeral of a positive integer. *)
Lemma decimal_snoc (v d : Z) :
  0 < v -> 0 <= d < 10 ->
  decimal (10 * v + d) = decimal v ++ String (digit_char d) "".
Proof.
  intros Hv Hd.
  pose proof (decimal_length_spec v Hv) as H. cbv zeta in H.
  fold (decimal_length v) in H.
  assert (Hl : 0 < decimal_length v).
  { pose proof (count_digits_positive (Z.to_nat (Z.log2 v)) v).
    unfold decimal_length. lia. }
  assert (Hn : decimal_length (10 * v + d) = decimal_length v + 1).
  { apply decimal_length_unique; [lia|].
    replace (decimal_length v + 1 - 1) with (Z.succ (decimal_length v - 1))
      by lia.
    rewrite Z.pow_succ_r, Z.pow_add_r by lia. lia. }
  rewrite !decimal_eq, Hn.
  replace (Z.to_nat (decimal_length v + 1))
    with (S (Z.to_nat (decimal_length v))) by lia.
  apply digits_fixed_snoc; lia.
Qed.

Lemma digits_only_fixed (k : nat) (s : Z) :
  digits_only (digits_fixed k s) = true.
Proof.
  induction k as [|k IH]; [reflexivity|].
  cbn [digits_fixed digits_only]. rewrite IH, andb_true_r.
  apply is_digit_digit_char. apply Z.mod_pos_bound. lia.
Qed.

Lemma digits_value_fixed (k : nat) (s acc : Z) :
  0 <= s ->
  digits_value acc (digits_fixed k s)
  = acc * 10 ^ Z.of_nat k + s mod 10 ^ Z.of_nat k.
Proof.
  intros Hs. revert acc. induction k as [|k IH]; intros acc.
  - simpl. rewrite Z.mod_1_r. lia.
  - cbn [digits_fixed digits_value]. rewrite IH.
    rewrite digit_val_digit_char by (apply Z.mod_pos_bound; lia).
    rewrite Nat2Z.inj_succ, Z.pow_succ_r by lia.
    assert (Hp : 0 < 10 ^ Z.of_nat k) by (apply Z.pow_pos_nonneg; lia).
    rewrite (Z.mul_comm 10 (10 ^ Z.of_nat k)).
    rewrite (Z.rem_mul_r s (10 ^ Z.of_nat k) 10) by lia.
    ring.
Qed.

Lemma decimal_length_positive (v : Z) : 0 < decimal_length v.
Proof.
  pose proof (count_digits_positive (Z.to_nat (Z.log2 v)) v).
  unfold decimal_length. lia.
Qed.

Lemma digits_value_decimal (v : Z) :
  0 <= v -> digits_value 0 (decimal v) = v.
Proof.
  intros Hv. destruct (Z.eq_dec v 0) as [->|Hne]; [reflexivity|].
  rewrite decimal_eq, digits_value_fixed by lia.
  pose proof (decimal_length_spec v ltac:(lia)) as H. cbv zeta in H.
  fold (decimal_length v) in H.
  pose proof (decimal_length_positive v).
  rewrite Z2Nat.id by lia. rewrite Z.mod_small; lia.
Qed.

Lemma decimal_head (v : Z) :
  exists a r, decimal v = String a r /\ is_digit a = true /\
              digits_only r = true.
Proof.
  rewrite decimal_eq. pose proof (decimal_length_positive v).
  destruct (Z.to_nat (decimal_length v)) as [|k] eqn:E; [lia|].
  cbn [digits_fixed]. eexists; eexists. split; [reflexivity|]. split.
  - apply is_digit_digit_char. apply Z.mod_pos_bound. lia.
  - apply digits_only_fixed.
Qed.

(** ** Reading a typed number *)

Lemma is_digit_cases (a : ascii) :
  is_digit a = true ->
  a = "0"%char \/ a = "1"%char \/ a = "2"%char \/ a = "3"%char \/
  a = "4"%char \/ a = "5"%char \/ a = "6"%char \/ a = "7"%char \/
  a = "8"%char \/ a = "9"%char.
Proof.
  destruct a as [[] [] [] [] [] [] [] []]; intros H;
    try discriminate H; auto 10.
Qed.

Lemma digit_not_space (a : ascii) : is_digit a = true -> is_space a = false.
Proof.
  intros H. apply is_digit_cases in H.
  repeat (destruct H as [-> | H]; [reflexivity|]). now subst.
Qed.

Lemma digits_only_no_space (s : string) :
  digits_only s = true -> no_space s = true.
Proof.
  induction s as [|a r IH]; [reflexivity|]. simpl.
  intros H. apply andb_prop in H as [Ha Hr].
  now rewrite (digit_not_space a Ha), IH.
Qed.

Lemma int_then_frac_no_space (s : string) :
  int_then_frac s = true -> no_space s = true.
Proof.
  induction s as [|a r IH]; [reflexivity|]. simpl.
  destruct (is_digit a) eqn:Ea.
  - intros H. now rewrite (digit_not_space a Ea), IH.
  - intros H. apply andb_prop in H as [Hp Hr].
    apply Ascii.eqb_eq in Hp. subst a.
    now rewrite digits_only_no_space.
Qed.

Lemma trim_start_no_space (s : string) :
  no_space s = true -> trim_start s = s.
Proof.
  destruct s as [|a r]; [reflexivity|]. simpl.
  intros H. apply andb_prop in H as [Ha _].
  apply negb_true_iff in Ha. now rewrite Ha.
Qed.

Lemma trim_end_no_space (s : string) :
  no_space s = true -> trim_end s = s.
Proof.
  induction s as [|a r IH]; [reflexivity|]. simpl.
  intros H. apply andb_prop in H as [Ha Hr].
  apply negb_true_iff in Ha. rewrite (IH Hr), Ha. now destruct r.
Qed.

Lemma trim_no_space (s : string) :
  no_space s = true -> trim_end (trim_start s) = s.
Proof.
  intros H. now rewrite (trim_start_no_space s H), (trim_end_no_space s H).
Qed.

Lemma unsigned_number_no_space (u : string) :
  unsigned_number u = true -> no_space u = true.
Proof.
  destruct u as [|a r]; [discriminate|]. simpl.
  intros H. apply andb_prop in H as [Ha Hr].
  now rewrite (digit_not_space a Ha), int_then_frac_no_space.
Qed.

(** A typed unsigned number is read as a decimal literal, never as a
    hexadecimal, octal or binary one. *)
Lemma Number_unsigned (u : string) :
  unsigned_number u = true -> Number u = parse_unsigned false u.
Proof.
  intros H. unfold Number.
  rewrite (trim_no_space u (unsigned_number_no_space u H)).
  destruct u as [|a r]; [discriminate|].
  cbn [unsigned_number] in H. apply andb_prop in H as [Ha Hr].
  apply is_digit_cases in Ha.
  destruct Ha as [-> | Ha];
    [|repeat (destruct Ha as [-> | Ha]; [reflexivity|]); now subst].
  destruct r as [|c r']; [reflexivity|].
  assert (Hc : is_digit c = true \/ c = "."%char).
  { cbn [int_then_frac] in Hr. destruct (is_digit c); [now left|].
    apply andb_prop in Hr as [Hp _]. right. now apply Ascii.eqb_eq. }
  destruct Hc as [Hc | ->]; [|reflexivity].
  apply is_digit_cases in Hc.
  repeat (destruct Hc as [-> | Hc]; [reflexivity|]). now subst.
Qed.

Lemma Number_negative (u : string) :
  unsigned_number u = true ->
  Number (String "-" u) = parse_unsigned true u.
Proof.
  intros H. unfold Number. rewrite trim_no_space; [reflexivity|].
  simpl. now apply unsigned_number_no_space.
Qed.

Lemma binary_round_aux_opp (m e : Z) (l : location) :
  binary_round_aux prec emax true m e l
  = SFopp (binary_round_aux prec emax false m e l).
Proof.
  unfold binary_round_aux.
  destruct (shr_fexp prec emax m e l) as [mrs e'].
  destruct (shr_fexp prec emax _ e' loc_Exact) as [mrs' e''].
  destruct (shr_m mrs'); try reflexivity.
  now destruct (e'' <=? emax - prec).
Qed.

Lemma of_decimal_opp (m : positive) (e : Z) :
  of_decimal true m e = SFopp (of_decimal false m e).
Proof.
  unfold of_decimal. destruct (0 <=? e).
  - unfold binary_round.
    destruct (shl_align _ _ _) as [mz ez]. apply binary_round_aux_opp.
  - unfold SFdiv. cbn [xorb].
    destruct (SFdiv_core_binary _ _ _ _ _ _) as [[mz ez] lz].
    apply binary_round_aux_opp.
Qed.

(** The sign of a literal only sets the sign of the number read. *)
Lemma parse_unsigned_opp (s : string) :
  parse_unsigned true s = SFopp (parse_unsigned false s).
Proof.
  unfold parse_unsigned.
  destruct (s =? "Infinity")%string; [reflexivity|].
  destruct (span_digits s) as [ip r1].
  destruct (match r1 with
            | String "." t => span_digits t
            | _ => (EmptyString, r1)
            end) as [fp r2].
  destruct (String.length ip + String.length fp)%nat; [reflexivity|].
  destruct (parse_exponent r2); [|reflexivity].
  destruct (digits_value 0 (ip ++ fp)); try reflexivity.
  apply of_decimal_opp.
Qed.

Lemma SFopp_involutive (x : number) : SFopp (SFopp x) = x.
Proof. destruct x as [s|s| |s m e]; simpl; now rewrite ?negb_involutive. Qed.

Lemma append_empty (s : string) : s ++ "" = s.
Proof. induction s as [|a r IH]; simpl; [reflexivity | now rewrite IH]. Qed.

Lemma span_digits_digits_only (t : string) :
  digits_only t = true -> span_digits t = (t, "").
Proof.
  induction t as [|a r IH]; [reflexivity|]. simpl.
  intros H. apply andb_prop in H as [Ha Hr]. now rewrite Ha, IH.
Qed.

Lemma digit_val_nonneg (a : ascii) : is_digit a = true -> 0 <= digit_val a.
Proof.
  intros H. apply is_digit_cases in H.
  repeat (destruct H as [-> | H]; [apply Z.leb_le; reflexivity|]).
  subst. apply Z.leb_le; reflexivity.
Qed.

Lemma digits_value_nonneg (t : string) (acc : Z) :
  digits_only t = true -> 0 <= acc -> 0 <= digits_value acc t.
Proof.
  revert acc. induction t as [|a r IH]; intros acc;
    cbn [digits_value digits_only]; [auto|].
  intros H Hacc. apply andb_prop in H as [Ha Hr].
  apply IH; [exact Hr|]. pose proof (digit_val_nonneg a Ha). lia.
Qed.

Lemma int_then_frac_of_digits (t : string) :
  digits_only t = true -> int_then_frac t = true.
Proof.
  induction t as [|a r IH]; [reflexivity|]. simpl.
  intros H. apply andb_prop in H as [Ha Hr]. now rewrite Ha, IH.
Qed.

Lemma head_digit_not_Infinity (a : ascii) (r : string) :
  is_digit a = true -> (String a r =? "Infinity")%string = false.
Proof.
  intros H. apply String.eqb_neq. intros E. inversion E. subst a.
  discriminate.
Qed.

(** A string of digits is read as the integer it denotes, rounded to the
    nearest Number. *)
Lemma Number_digits (a : ascii) (r : string) :
  is_digit a = true -> digits_only r = true ->
  Number (String a r) = ofZ (digits_value 0 (String a r)).
Proof.
  intros Ha Hr.
  assert (Hd : digits_only (String a r) = true) by (simpl; now rewrite Ha).
  rewrite Number_unsigned
    by (simpl; now rewrite Ha, int_then_frac_of_digits).
  unfold parse_unsigned.
  rewrite (head_digit_not_Infinity a r Ha).
  rewrite (span_digits_digits_only _ Hd).
  cbn [String.length Nat.add]. cbn [parse_exponent].
  rewrite append_empty.
  pose proof (digits_value_nonneg _ 0 Hd ltac:(lia)) as Hv.
  destruct (digits_value 0 (String a r)) as [|m|m]; try lia.
  - reflexivity.
  - unfold of_decimal, ofZ, binary_normalize. simpl.
    now rewrite Pos.mul_1_r.
Qed.

Lemma Number_decimal (v : Z) : 0 <= v -> Number (decimal v) = ofZ v.
Proof.
  intros Hv. destruct (decimal_head v) as (a & r & E & Ha & Hr).
  rewrite E, Number_digits by assumption.
  now rewrite <- E, digits_value_decimal.
Qed.

(** ** Rounding never produces NaN *)

Lemma shr_1_m_nonneg (mrs : shr_record) :
  0 <= shr_m mrs -> 0 <= shr_m (shr_1 mrs).
Proof.
  destruct mrs as [m r s]. cbn [shr_m]. intros H.
  rewrite shr_1_nonneg by exact H. cbn [shr_m].
  apply Z.div_pos; lia.
Qed.

Lemma shr_m_nonneg (mrs : shr_record) (e n : Z) :
  0 <= shr_m mrs -> 0 <= shr_m (fst (shr mrs e n)).
Proof.
  intros H. unfold shr. destruct n as [|p|p]; cbn [fst]; try exact H.
  rewrite iter_pos_nat.
  induction (Pos.to_nat p) as [|k IH]; [exact H|].
  rewrite Nat.iter_succ. now apply shr_1_m_nonneg.
Qed.

Lemma shr_fexp_nonneg (m e : Z) (l : location) :
  0 <= m -> 0 <= shr_m (fst (shr_fexp prec emax m e l)).
Proof.
  intros H. unfold shr_fexp. apply shr_m_nonneg.
  now destruct l as [|[]].
Qed.

Lemma round_nearest_even_nonneg (m : Z) (l : location) :
  0 <= m -> 0 <= round_nearest_even m l.
Proof.
  intros H. destruct l as [|[]]; simpl; try lia.
  destruct (Z.even m); lia.
Qed.

Lemma binary_round_aux_not_nan (sx : bool) (m e : Z) (l : location) :
  0 <= m -> binary_round_aux prec emax sx m e l <> S754_nan.
Proof.
  intros H. unfold binary_round_aux.
  pose proof (shr_fexp_nonneg m e l H) as H1.
  destruct (shr_fexp prec emax m e l) as [mrs e']. cbn [fst] in H1.
  pose proof (shr_fexp_nonneg _ e' loc_Exact
                (round_nearest_even_nonneg (shr_m mrs)
                   (loc_of_shr_record mrs) H1)) as H2.
  destruct (shr_fexp prec emax _ e' loc_Exact) as [mrs' e''].
  cbn [fst] in H2.
  destruct (shr_m mrs') as [|q|q]; try lia; try discriminate.
  destruct (e'' <=? emax - prec); discriminate.
Qed.

Lemma of_decimal_not_nan (sx : bool) (m : positive) (e : Z) :
  of_decimal sx m e <> S754_nan.
Proof.
  unfold of_decimal. destruct (0 <=? e).
  - unfold binary_round. destruct (shl_align _ _ _) as [mz ez].
    apply binary_round_aux_not_nan. lia.
  - unfold SFdiv, SFdiv_core_binary.
    set (m' := match _ with Z.pos _ => _ | _ => _ end).
    assert (Hm' : 0 <= m').
    { unfold m'. destruct (_ - _ - _) as [|p|p]; try lia.
      apply Z.shiftl_nonneg. lia. }
    set (d := Z.pos (Z.to_pos (10 ^ (- e)))).
    assert (Hq : fst (Z.div_eucl m' d) = m' / d) by reflexivity.
    destruct (Z.div_eucl m' d) as [q r]. cbn [fst] in Hq.
    apply binary_round_aux_not_nan. rewrite Hq.
    apply Z.div_pos; unfold d; lia.
Qed.

Lemma span_int_then_frac (r : string) :
  int_then_frac r = true ->
  exists ip, digits_only ip = true /\
    (span_digits r = (ip, "") \/
     exists fp, digits_only fp = true /\ span_digits r = (ip, String "." fp)).
Proof.
  induction r as [|a r IH]; simpl.
  - intros _. exists "". auto.
  - destruct (is_digit a) eqn:Ea.
    + intros H. destruct (IH H) as (ip & Hip & Hs).
      exists (String a ip). split; [simpl; now rewrite Ea|].
      destruct Hs as [-> | (fp & Hfp & ->)]; [now left|].
      right. now exists fp.
    + intros H. apply andb_prop in H as [Hp Hr].
      apply Ascii.eqb_eq in Hp. subst a.
      exists "". split; [reflexivity|]. right. now exists r.
Qed.

(** A typed number never reads as NaN. *)
Lemma parse_unsigned_not_nan (neg : bool) (u : string) :
  unsigned_number u = true -> parse_unsigned neg u <> S754_nan.
Proof.
  destruct u as [|a r]; [discriminate|]. cbn [unsigned_number].
  intros H. apply andb_prop in H as [Ha Hr].
  unfold parse_unsigned. rewrite (head_digit_not_Infinity a r Ha).
  cbn [span_digits]. rewrite Ha.
  destruct (span_int_then_frac r Hr) as (ip & Hip & Hs).
  destruct Hs as [-> | (fp & Hfp & ->)].
  - cbn [String.length Nat.add parse_exponent].
    destruct (digits_value 0 _); try discriminate.
    apply of_decimal_not_nan.
  - rewrite (span_digits_digits_only fp Hfp).
    cbn [String.length Nat.add parse_exponent].
    destruct (digits_value 0 _); try discriminate.
    apply of_decimal_not_nan.
Qed.

(** ** Typing digits *)

Lemma digitKey_digit_char (d : Digit) :
  digitKey d = String (digit_char (digitZ d)) "".
Proof. now destruct d. Qed.

Lemma digitZ_range (d : Digit) : 0 <= digitZ d < 10.
Proof. destruct d; simpl; lia. Qed.

Lemma decimal_not_error (v : Z) : (decimal v =? "Error")%string = false.
Proof.
  destruct (decimal_head v) as (a & r & -> & Ha & _).
  apply String.eqb_neq. intros E. inversion E. subst a. discriminate.
Qed.

Lemma decimal_not_minus_zero (v : Z) : (decimal v =? "-0")%string = false.
Proof.
  destruct (decimal_head v) as (a & r & -> & Ha & _).
  apply String.eqb_neq. intros E. inversion E. subst a. discriminate.
Qed.

Lemma decimal_zero_iff (v : Z) :
  0 <= v -> (decimal v =? "0")%string = (v =? 0).
Proof.
  intros Hv. destruct (Z.eqb_spec v 0) as [->|Hne]; [reflexivity|].
  apply String.eqb_neq. intros E.
  pose proof (digits_value_decimal v Hv) as H. rewrite E in H.
  change (digits_value 0 "0") with 0 in H. lia.
Qed.

Lemma appendDigit_decimal (s : CalculatorState) (v : Z) (d : Digit) :
  isError s = false -> hasCalculated s = false -> 0 <= v ->
  appendDigit (digitKey d) (set_currentInput (decimal v) s)
  = set_currentInput (decimal (10 * v + digitZ d)) s.
Proof.
  intros Hie Hhc Hv. pose proof (digitZ_range d) as Hd.
  unfold appendDigit, resetStateForNewInput, checkErrorState.
  cbn [set_currentInput isError currentInput hasCalculated].
  rewrite Hie, Hhc, decimal_not_error. cbn [orb].
  cbn [set_currentInput isError currentInput hasCalculated
       firstOperand secondOperand operator].
  rewrite decimal_zero_iff by exact Hv.
  destruct (Z.eqb_spec v 0) as [->|Hne].
  - rewrite Z.mul_0_r, Z.add_0_l, (decimal_digit (digitZ d)) by exact Hd.
    now rewrite digitKey_digit_char.
  - rewrite decimal_not_minus_zero, decimal_snoc by lia.
    now rewrite digitKey_digit_char.
Qed.

Lemma runFrom_app (s : CalculatorState) (cs cs' : list Command) :
  runFrom s (cs ++ cs')%list = runFrom (runFrom s cs) cs'.
Proof. unfold runFrom. apply fold_left_app. Qed.

Lemma run_runFrom (cs : list Command) : run cs = runFrom calculatorState cs.
Proof. reflexivity. Qed.

Lemma typeDigits_from (ds : list Digit) (s : CalculatorState) (v : Z) :
  isError s = false -> hasCalculated s = false -> 0 <= v ->
  runFrom (set_currentInput (decimal v) s) (typeDigits ds)
  = set_currentInput
      (decimal (fold_left (fun v d => 10 * v + digitZ d) ds v)) s.
Proof.
  intros Hie Hhc. revert v. induction ds as [|d ds IH]; intros v Hv.
  - reflexivity.
  - cbn [typeDigits map runFrom fold_left dispatch].
    rewrite appendDigit_decimal by assumption.
    apply IH. pose proof (digitZ_range d). lia.
Qed.

Lemma digitsValue_nonneg (ds : list Digit) : 0 <= digitsValue ds.
Proof.
  unfold digitsValue.
  assert (H : forall v, 0 <= v ->
              0 <= fold_left (fun v d => 10 * v + digitZ d) ds v).
  { induction ds as [|d ds IH]; intros v Hv; [exact Hv|].
    cbn [fold_left]. apply IH. pose proof (digitZ_range d). lia. }
  apply H. lia.
Qed.

Lemma read_decimal (s : CalculatorState) (v : Z) :
  0 <= v ->
  getCurrentInputAsNumber (set_currentInput (decimal v) s) = ofZ v.
Proof.
  intros Hv. unfold getCurrentInputAsNumber.
  cbn [set_currentInput currentInput].
  destruct (decimal_head v) as (a & r & E & Ha & Hr).
  replace ((decimal v =? ".")%string || (decimal v =? "-.")%string)
    with false.
  - now apply Number_decimal.
  - symmetry. apply orb_false_intro; apply String.eqb_neq; rewrite E;
      intros E'; inversion E'; subst a; discriminate.
Qed.

(** X1: typing digits into a state whose input is ["0"] (not in error, not
    post-equals) shows the decimal numeral of the integer the digits denote,
    leading zeros collapsed, changes no other field, and that integer is the
    number read from the input. *)
Theorem typed_digits_denote (s : CalculatorState) (ds : list Digit) :
  editing s -> currentInput s = "0" ->
  runFrom s (typeDigits ds)
  = set_currentInput (decimal (digitsValue ds)) s /\
  getCurrentInputAsNumber (runFrom s (typeDigits ds)) = ofZ (digitsValue ds).
Proof.
  intros [He Hhc] Hc.
  destruct (checkErrorState_false s He) as [Hie _].
  assert (Hs : s = set_currentInput (decimal 0) s)
    by (change (decimal 0) with "0"; rewrite <- Hc;
        symmetry; apply set_currentInput_same).
  assert (Hr : runFrom s (typeDigits ds)
               = set_currentInput (decimal (digitsValue ds)) s).
  { rewrite Hs at 1. apply typeDigits_from; [assumption | assumption | lia]. }
  split; [exact Hr|].
  rewrite Hr. apply read_decimal, digitsValue_nonneg.
Qed.

Lemma typed_digits_denote_witness :
  currentInput (runFrom calculatorState (typeDigits [D0; D5; D0]))
  = decimal 50.
Proof.
  pose proof (typed_digits_denote calculatorState [D0; D5; D0]
                (conj eq_refl eq_refl) eq_refl) as [H _].
  rewrite H. reflexivity.
Defined.

(** ** Exact arithmetic on the integers *)

Lemma Zdigits2_mono (a b : Z) : 0 < a <= b -> Zdigits2 a <= Zdigits2 b.
Proof.
  intros H. pose proof (Zdigits2_bounds a ltac:(lia)) as [Ha _].
  pose proof (Zdigits2_bounds b ltac:(lia)) as [_ Hb].
  destruct (Z_le_gt_dec (Zdigits2 a) (Zdigits2 b)); [assumption|].
  assert (2 ^ Zdigits2 b <= 2 ^ (Zdigits2 a - 1))
    by (apply Z.pow_le_mono_r; lia).
  lia.
Qed.

Lemma sub_canon (a b : Z) :
  0 < b -> b < a -> Zdigits2 a <= 53 ->
  sub (canon a 0) (canon b 0) = canon (a - b) 0.
Proof.
  intros Hb Hab Hd.
  pose proof (Zdigits2_pos a ltac:(lia)). pose proof (Zdigits2_pos b Hb).
  pose proof (Zdigits2_mono b a ltac:(lia)).
  pose proof (Zdigits2_mono (a - b) a ltac:(lia)).
  pose proof (Zdigits2_pos (a - b) ltac:(lia)).
  unfold sub, canon at 1 2, SFsub. cbn [cond_Zopp].
  set (ez := Z.min (0 + Zdigits2 a - 53) (0 + Zdigits2 b - 53)).
  assert (Hez : ez <= 0) by lia.
  assert (Hp : 0 < 2 ^ (- ez)) by (apply Z.pow_pos_nonneg; lia).
  assert (HD : Zpos (fst (shl_align (Z.to_pos (a * 2 ^ (53 - Zdigits2 a)))
                            (0 + Zdigits2 a - 53) ez))
               - Zpos (fst (shl_align (Z.to_pos (b * 2 ^ (53 - Zdigits2 b)))
                              (0 + Zdigits2 b - 53) ez))
               = (a - b) * 2 ^ (- ez)).
  { rewrite !shl_align_fst, !canon_mantissa by lia.
    rewrite <- !Z.mul_assoc, <- !Z.pow_add_r by lia.
    replace (53 - Zdigits2 a + (0 + Zdigits2 a - 53 - ez)) with (- ez) by lia.
    replace (53 - Zdigits2 b + (0 + Zdigits2 b - 53 - ez)) with (- ez) by lia.
    ring. }
  rewrite HD.
  destruct ((a - b) * 2 ^ (- ez)) as [|m|m] eqn:Em; try nia.
  unfold binary_normalize.
  replace (canon (a - b) 0) with (canon (a - b) (ez + - ez))
    by (f_equal; lia).
  apply (binary_round_exact m (a - b) (- ez) ez); lia.
Qed.

Lemma ofZ_nonneg_finite (n : Z) :
  0 <= n -> n < 2 ^ 53 -> isFinite (ofZ n) = true.
Proof.
  intros H0 H. destruct (Z.eq_dec n 0) as [->|Hne]; [reflexivity|].
  rewrite ofZ_canon_int by (try apply Zdigits2_le; lia). reflexivity.
Qed.

Lemma add_ofZ (a b : Z) :
  0 <= a -> 0 <= b -> a + b < 2 ^ 53 ->
  add (ofZ a) (ofZ b) = ofZ (a + b).
Proof.
  intros Ha Hb H.
  destruct (Z.eq_dec a 0) as [->|Hna].
  { destruct (Z.eq_dec b 0) as [->|Hnb]; [reflexivity|].
    rewrite Z.add_0_l, (ofZ_canon_int b) by (try apply Zdigits2_le; lia).
    reflexivity. }
  destruct (Z.eq_dec b 0) as [->|Hnb].
  { rewrite Z.add_0_r, (ofZ_canon_int a) by (try apply Zdigits2_le; lia).
    reflexivity. }
  rewrite !ofZ_canon_int by (try apply Zdigits2_le; lia).
  apply add_canon; try lia. apply Zdigits2_le; lia.
Qed.

Lemma sub_ofZ (a b : Z) :
  0 <= b -> b <= a -> a < 2 ^ 53 ->
  sub (ofZ a) (ofZ b) = ofZ (a - b).
Proof.
  intros Hb Hab H.
  destruct (Z.eq_dec b 0) as [->|Hnb].
  { rewrite Z.sub_0_r. destruct (Z.eq_dec a 0) as [->|Hna]; [reflexivity|].
    rewrite (ofZ_canon_int a) by (try apply Zdigits2_le; lia).
    reflexivity. }
  destruct (Z.eq_dec a b) as [->|Hne].
  { rewrite Z.sub_diag, (ofZ_canon_int b) by (try apply Zdigits2_le; lia).
    unfold sub, canon, SFsub. cbn [cond_Zopp].
    now rewrite Z.sub_diag. }
  rewrite !ofZ_canon_int by (try apply Zdigits2_le; lia).
  apply sub_canon; try lia. apply Zdigits2_le; lia.
Qed.

Lemma mul_ofZ (a b : Z) :
  0 <= a < 2 ^ 53 -> 0 <= b < 2 ^ 53 -> a * b < 2 ^ 53 ->
  mul (ofZ a) (ofZ b) = ofZ (a * b).
Proof.
  intros Ha Hb H.
  destruct (Z.eq_dec a 0) as [->|Hna].
  { destruct (Z.eq_dec b 0) as [->|Hnb]; [reflexivity|].
    rewrite Z.mul_0_l, (ofZ_canon_int b) by (try apply Zdigits2_le; nia).
    reflexivity. }
  destruct (Z.eq_dec b 0) as [->|Hnb].
  { rewrite Z.mul_0_r, (ofZ_canon_int a) by (try apply Zdigits2_le; nia).
    reflexivity. }
  assert (Hd : Zdigits2 (a * b) <= 53) by (apply Zdigits2_le; nia).
  pose proof (Zdigits2_pos (a * b) ltac:(nia)).
  rewrite !ofZ_canon_int by (try apply Zdigits2_le; nia).
  apply (mul_canon a b 0 0); lia.
Qed.

Lemma div_ofZ (q b : Z) :
  0 <= q -> 0 < b < 2 ^ 53 -> q * b < 2 ^ 53 ->
  div (ofZ (q * b)) (ofZ b) = ofZ q.
Proof.
  intros Hq Hb H.
  destruct (Z.eq_dec q 0) as [->|Hnq].
  { rewrite Z.mul_0_l, (ofZ_canon_int b) by (try apply Zdigits2_le; nia).
    reflexivity. }
  assert (Hd : Zdigits2 (q * b) <= 53) by (apply Zdigits2_le; nia).
  pose proof (Zdigits2_mono q (q * b) ltac:(nia)).
  pose proof (Zdigits2_mono b (q * b) ltac:(nia)).
  pose proof (Zdigits2_pos q ltac:(lia)).
  rewrite !ofZ_canon_int by (try nia; lia).
  apply (div_canon q b 0 0); lia.
Qed.

Lemma ofZ_positive_not_zero (b : Z) :
  0 < b -> b < 2 ^ 53 -> strict_eq (ofZ b) zero = false.
Proof.
  intros Hb H. rewrite ofZ_canon_int by (try apply Zdigits2_le; lia).
  reflexivity.
Qed.

Lemma formatDisplayNumber_ofZ (n : Z) :
  0 <= n <= 36893488 -> formatDisplayNumber (ofZ n) = decimal n.
Proof.
  intros Hn.
  assert (Hs : n = 0 \/ n = 1 \/ n = 2 \/ n = 3 \/ 4 <= n) by lia.
  destruct Hs as [-> | [-> | [-> | [-> | H4]]]];
    [vm_compute; reflexivity .. |].
  rewrite (ofZ_canon_int n) by (try apply Zdigits2_le; lia).
  rewrite formatDisplayNumber_canon by lia.
  apply toString_canon_int. lia.
Qed.

(** ** A whole calculation on typed integers *)

Lemma selectOperator_typed (v : Z) (op : Op) :
  0 <= v ->
  selectOperator (opKey op) (set_currentInput (decimal v) calculatorState)
  = {| firstOperand := Some (ofZ v); secondOperand := None;
       operator := Some (opKey op); currentInput := "0";
       hasCalculated := false; isError := false |}.
Proof.
  intros Hv. unfold selectOperator, checkErrorState.
  cbn [set_currentInput calculatorState isError currentInput hasCalculated
       firstOperand secondOperand operator orb].
  rewrite decimal_not_error.
  change (getCurrentInputAsNumber
            {| firstOperand := None; secondOperand := None;
               operator := None; currentInput := decimal v;
               hasCalculated := false; isError := false |})
    with (getCurrentInputAsNumber
            (set_currentInput (decimal v) calculatorState)).
  now rewrite read_decimal.
Qed.

Lemma typed_calculation_state (a b : list Digit) (op : Op) :
  run (typeDigits a ++ [Operator op] ++ typeDigits b ++ [Equals])%list
  = let r := performCalculation (ofZ (digitsValue a)) (opKey op)
               (ofZ (digitsValue b)) in
    if isFinite r then
      {| firstOperand := Some r; secondOperand := Some (ofZ (digitsValue b));
         operator := Some (opKey op); currentInput := formatDisplayNumber r;
         hasCalculated := true; isError := false |}
    else
      {| firstOperand := None; secondOperand := None; operator := None;
         currentInput := "Error"; hasCalculated := false; isError := true |}.
Proof.
  pose proof (digitsValue_nonneg a) as Ha.
  pose proof (digitsValue_nonneg b) as Hb.
  rewrite run_runFrom, !runFrom_app.
  set (s2 := {| firstOperand := Some (ofZ (digitsValue a));
                secondOperand := None; operator := Some (opKey op);
                currentInput := "0"; hasCalculated := false;
                isError := false |}).
  set (s3 := set_currentInput (decimal (digitsValue b)) s2).
  assert (H1 : runFrom calculatorState (typeDigits a)
               = set_currentInput (decimal (digitsValue a)) calculatorState)
    by exact (typeDigits_from a calculatorState 0 eq_refl eq_refl
                (Z.le_refl 0)).
  assert (H2 : runFrom (set_currentInput (decimal (digitsValue a))
                          calculatorState) [Operator op] = s2)
    by exact (selectOperator_typed (digitsValue a) op Ha).
  assert (H3 : runFrom s2 (typeDigits b) = s3)
    by exact (typeDigits_from b s2 0 eq_refl eq_refl (Z.le_refl 0)).
  rewrite H1, H2, H3.
  change (runFrom s3 [Equals]) with (calculateResult s3).
  assert (He : checkErrorState s3 = false).
  { unfold checkErrorState, s3, s2.
    cbn [set_currentInput isError currentInput orb].
    apply decimal_not_error. }
  rewrite (calculateResult_pending s3 (ofZ (digitsValue a)) (opKey op) He
             eq_refl eq_refl).
  assert (Ho : equalsOperand s3 = ofZ (digitsValue b)).
  { unfold equalsOperand, s3. cbn [set_currentInput hasCalculated s2].
    now apply read_decimal. }
  cbv zeta. rewrite Ho. reflexivity.
Qed.

(** X2: typing the integer [a], an operator key, the integer [b] and Equals
    leaves [performCalculation a op b] as [firstOperand], [b] as
    [secondOperand], the formatted result as [currentInput] and
    [hasCalculated] set, or the error state when that result is not
    finite. *)
Theorem typed_calculation (a b : list Digit) (op : Op) :
  run (typeDigits a ++ [Operator op] ++ typeDigits b ++ [Equals])%list
  = let r := performCalculation (ofZ (digitsValue a)) (opKey op)
               (ofZ (digitsValue b)) in
    if isFinite r then
      {| firstOperand := Some r; secondOperand := Some (ofZ (digitsValue b));
         operator := Some (opKey op); currentInput := formatDisplayNumber r;
         hasCalculated := true; isError := false |}
    else
      {| firstOperand := None; secondOperand := None; operator := None;
         currentInput := "Error"; hasCalculated := false; isError := true |}.
Proof. exact (typed_calculation_state a b op). Qed.

Lemma typed_result_display (a b : list Digit) (op : Op) (n : Z) :
  performCalculation (ofZ (digitsValue a)) (opKey op) (ofZ (digitsValue b))
  = ofZ n ->
  0 <= n <= 36893488 ->
  currentInput
    (run (typeDigits a ++ [Operator op] ++ typeDigits b ++ [Equals])%list)
  = decimal n.
Proof.
  intros Hr Hn. rewrite typed_calculation_state. cbv zeta. rewrite Hr.
  rewrite ofZ_nonneg_finite by lia. cbn [currentInput].
  now apply formatDisplayNumber_ofZ.
Qed.

(** X3: the sum of two typed integers is displayed exactly, as its decimal
    numeral, whenever it is at most 36893488. *)
Theorem typed_sum_exact (a b : list Digit) :
  digitsValue a + digitsValue b <= 36893488 ->
  currentInput
    (run (typeDigits a ++ [Operator Plus] ++ typeDigits b ++ [Equals])%list)
  = decimal (digitsValue a + digitsValue b).
Proof.
  intros H. pose proof (digitsValue_nonneg a).
  pose proof (digitsValue_nonneg b).
  apply typed_result_display; [|lia].
  change (performCalculation ?x (opKey Plus) ?y) with (add x y).
  apply add_ofZ; lia.
Qed.

Lemma typed_sum_exact_witness :
  currentInput
    (run (typeDigits [D1; D9] ++ [Operator Plus] ++ typeDigits [D2; D3]
          ++ [Equals])%list)
  = decimal (digitsValue [D1; D9] + digitsValue [D2; D3]).
Proof.
  apply (typed_sum_exact [D1; D9] [D2; D3]). discriminate.
Defined.

(** X4: the difference of two typed integers [a >= b], with [a] below 2^53,
    is displayed exactly whenever it is at most 36893488. *)
Theorem typed_difference_exact (a b : list Digit) :
  digitsValue b <= digitsValue a -> digitsValue a < 2 ^ 53 ->
  digitsValue a - digitsValue b <= 36893488 ->
  currentInput
    (run (typeDigits a ++ [Operator Minus] ++ typeDigits b ++ [Equals])%list)
  = decimal (digitsValue a - digitsValue b).
Proof.
  intros Hab Ha H. pose proof (digitsValue_nonneg b).
  apply typed_result_display; [|lia].
  change (performCalculation ?x (opKey Minus) ?y) with (sub x y).
  apply sub_ofZ; lia.
Qed.

Lemma typed_difference_exact_witness :
  currentInput
    (run (typeDigits [D4; D2] ++ [Operator Minus] ++ typeDigits [D1; D7]
          ++ [Equals])%list)
  = decimal (digitsValue [D4; D2] - digitsValue [D1; D7]).
Proof.
  apply (typed_difference_exact [D4; D2] [D1; D7]);
    [discriminate | reflexivity | discriminate].
Defined.

(** X5: the product of two typed integers below 2^53 is displayed exactly
    whenever it is at most 36893488. *)
Theorem typed_product_exact (a b : list Digit) :
  digitsValue a < 2 ^ 53 -> digitsValue b < 2 ^ 53 ->
  digitsValue a * digitsValue b <= 36893488 ->
  currentInput
    (run (typeDigits a ++ [Operator Times] ++ typeDigits b ++ [Equals])%list)
  = decimal (digitsValue a * digitsValue b).
Proof.
  intros Ha Hb H.
  pose proof (digitsValue_nonneg a). pose proof (digitsValue_nonneg b).
  apply typed_result_display; [|nia].
  change (performCalculation ?x (opKey Times) ?y) with (mul x y).
  apply mul_ofZ; lia.
Qed.

Lemma typed_product_exact_witness :
  currentInput
    (run (typeDigits [D7] ++ [Operator Times] ++ typeDigits [D8]
          ++ [Equals])%list)
  = decimal (digitsValue [D7] * digitsValue [D8]).
Proof.
  apply (typed_product_exact [D7] [D8]);
    [reflexivity | reflexivity | discriminate].
Defined.

(** X6: when the typed divisor [b] is not zero and divides the typed
    dividend [a] (both below 2^53), the quotient is displayed exactly
    whenever it is at most 36893488. *)
Theorem typed_quotient_exact (a b : list Digit) :
  0 < digitsValue b < 2 ^ 53 -> digitsValue a < 2 ^ 53 ->
  digitsValue a mod digitsValue b = 0 ->
  digitsValue a / digitsValue b <= 36893488 ->
  currentInput
    (run (typeDigits a ++ [Operator Divide] ++ typeDigits b ++ [Equals])%list)
  = decimal (digitsValue a / digitsValue b).
Proof.
  intros Hb Ha Hm H.
  pose proof (digitsValue_nonneg a) as Ha0.
  pose proof (Z.div_mod (digitsValue a) (digitsValue b) ltac:(lia)) as Hdm.
  set (q := digitsValue a / digitsValue b) in *.
  assert (Hq : digitsValue a = q * digitsValue b) by lia.
  assert (Hq0 : 0 <= q) by (apply Z.div_pos; lia).
  apply typed_result_display; [|lia].
  unfold performCalculation. cbn [opKey String.eqb Ascii.eqb Bool.eqb].
  rewrite ofZ_positive_not_zero by lia.
  rewrite Hq. apply div_ofZ; lia.
Qed.

Lemma typed_quotient_exact_witness :
  currentInput
    (run (typeDigits [D5; D6] ++ [Operator Divide] ++ typeDigits [D8]
          ++ [Equals])%list)
  = decimal (digitsValue [D5; D6] / digitsValue [D8]).
Proof.
  apply (typed_quotient_exact [D5; D6] [D8]);
    [split; reflexivity | reflexivity | reflexivity | discriminate].
Defined.

(** X7: dividing any typed integer by a typed zero (however many zeros are
    typed) and pressing Equals gives the error state, with ["Error"] on the
    display. *)
Theorem typed_division_by_zero (a b : list Digit) :
  digitsValue b = 0 ->
  run (typeDigits a ++ [Operator Divide] ++ typeDigits b ++ [Equals])%list
  = {| firstOperand := None; secondOperand := None; operator := None;
       currentInput := "Error"; hasCalculated := false; isError := true |}.
Proof.
  intros Hb. rewrite typed_calculation_state, Hb. reflexivity.
Qed.

Lemma typed_division_by_zero_witness :
  currentInput
    (run (typeDigits [D9] ++ [Operator Divide] ++ typeDigits [D0; D0]
          ++ [Equals])%list) = "Error".
Proof.
  now rewrite (typed_division_by_zero [D9] [D0; D0] eq_refl).
Defined.

(** ** The decimal point *)

Lemma includes_point_app (c : string) : includes "." (c ++ ".") = true.
Proof.
  induction c as [|a r IH]; [reflexivity|].
  cbn [append]. rewrite includes_point_cons, IH. apply orb_true_r.
Qed.

Lemma app_point_not_error (c : string) :
  (c ++ "." =? "Error")%string = false.
Proof.
  apply String.eqb_neq. intros E.
  assert (H : includes "." (c ++ ".") = includes "." "Error") by now rewrite E.
  rewrite includes_point_app in H. discriminate.
Qed.

Lemma occurrences_digits_only (t : string) :
  digits_only t = true -> occurrences "." t = 0%nat.
Proof.
  induction t as [|a r IH]; [reflexivity|]. cbn [digits_only occurrences].
  intros H. apply andb_prop in H as [Ha Hr].
  now rewrite (digit_not_point a Ha), IH.
Qed.

Lemma occurrences_int_then_frac (t : string) :
  int_then_frac t = true ->
  occurrences "." t = if includes "." t then 1%nat else 0%nat.
Proof.
  induction t as [|a r IH]; [reflexivity|].
  cbn [int_then_frac occurrences]. rewrite includes_point_cons.
  destruct (is_digit a) eqn:Ea.
  - intros H. rewrite (digit_not_point a Ea), IH by exact H. reflexivity.
  - intros H. apply andb_prop in H as [Hp Hr]. rewrite Hp.
    now rewrite occurrences_digits_only.
Qed.

Lemma occurrences_entered (c : string) :
  entered_number c = true ->
  occurrences "." c = if includes "." c then 1%nat else 0%nat.
Proof.
  intros H. destruct (entered_number_signed c H) as (b & _ & Hb & [-> | ->]).
  - apply occurrences_int_then_frac. now apply int_then_frac_of_unsigned.
  - cbn [occurrences]. rewrite includes_point_cons.
    change ("-" =? ".")%char with false. cbn [orb Nat.add].
    apply occurrences_int_then_frac. now apply int_then_frac_of_unsigned.
Qed.

Lemma addDecimalPoint_includes (s : CalculatorState) :
  includes "." (currentInput (addDecimalPoint s)) = true /\
  checkErrorState (addDecimalPoint s) = false /\
  hasCalculated (addDecimalPoint s) = false.
Proof.
  unfold addDecimalPoint, resetStateForNewInput.
  destruct (checkErrorState s || hasCalculated s) eqn:E.
  - repeat split.
  - apply orb_false_elim in E as [He Hhc].
    destruct (checkErrorState_false s He) as [Hie Hne].
    destruct (includes "." (currentInput s)) eqn:Ei; cbn [negb].
    + auto.
    + unfold checkErrorState.
      cbn [set_currentInput currentInput isError hasCalculated].
      rewrite includes_point_app, Hie, app_point_not_error. auto.
Qed.

(** X8: pressing the decimal point twice is the same as pressing it once, in
    every state; and after pressing it in a reachable state the input holds
    exactly one point. *)
Theorem addDecimalPoint_once (s : CalculatorState) :
  addDecimalPoint (addDecimalPoint s) = addDecimalPoint s /\
  (reachable s ->
   occurrences "." (currentInput (addDecimalPoint s)) = 1%nat).
Proof.
  destruct (addDecimalPoint_includes s) as (Hi & He & Hhc). split.
  - unfold addDecimalPoint at 1. unfold resetStateForNewInput.
    cbv zeta. rewrite He, Hhc. cbn [orb]. now rewrite Hi.
  - intros Hr. pose proof (shape_addDecimalPoint s (reachable_shape s Hr)) as H.
    set (s' := addDecimalPoint s) in *. clearbody s'.
    destruct H as [hc | f o c Hc Hp | a b op c Hc];
      cbn [hasCalculated currentInput] in *; try discriminate.
    now rewrite occurrences_entered, Hi.
Qed.

Lemma addDecimalPoint_once_witness :
  occurrences "."
    (currentInput (addDecimalPoint (run [Press D3; DecimalPoint; Press D1])))
  = 1%nat.
Proof.
  exact (proj2 (addDecimalPoint_once (run [Press D3; DecimalPoint; Press D1]))
           (reachable_run _)).
Defined.

(** ** Backspace *)

Lemma slice_0_m1_app (c : string) (a : ascii) :
  slice_0_m1 (c ++ String a "") = c.
Proof.
  induction c as [|x r IH]; [reflexivity|].
  destruct r as [|y r']; [reflexivity|].
  cbn [append] in *. rewrite slice_0_m1_cons. now rewrite IH.
Qed.

Lemma length_app_one (c : string) (a : ascii) :
  String.length (c ++ String a "") = S (String.length c).
Proof. induction c as [|x r IH]; simpl; [reflexivity | now rewrite IH]. Qed.

Lemma app_last_not_error (c : string) (a : ascii) :
  a <> "r"%char -> (c ++ String a "" =? "Error")%string = false.
Proof.
  intros Ha. apply String.eqb_neq. intros E.
  destruct c as [|x1 [|x2 [|x3 [|x4 [|x5 c]]]]]; inversion E; subst;
    try contradiction.
  destruct c; discriminate.
Qed.

Lemma digit_not_r (a : ascii) : is_digit a = true -> a <> "r"%char.
Proof. intros H ->. discriminate. Qed.

Lemma entered_number_not_dash (c : string) :
  entered_number c = true -> (c =? "-")%string = false.
Proof. intros H. apply String.eqb_neq. intros ->. discriminate. Qed.

(** Removing the last character of a typed number that just got one more
    character gives the typed number back. *)
Lemma backspace_text_app (c : string) (a : ascii) :
  entered_number c = true ->
  (if (String.length (c ++ String a "") <=? 1)%nat
      || ((String.length (c ++ String a "") =? 2)%nat
          && startsWith "-" (c ++ String a ""))
   then "0"
   else if (slice_0_m1 (c ++ String a "") =? "-")%string then "0"
        else slice_0_m1 (c ++ String a "")) = c.
Proof.
  intros H. rewrite slice_0_m1_app, length_app_one.
  rewrite (entered_number_not_dash c H).
  destruct c as [|x r]; [discriminate|].
  cbn [append String.length]. rewrite startsWith_dash.
  destruct r as [|y r']; [|reflexivity].
  cbn [String.length Nat.leb Nat.eqb orb andb].
  destruct (x =? "-")%char eqn:Ex; [|reflexivity].
  apply Ascii.eqb_eq in Ex. subst x. discriminate.
Qed.

Lemma removeLastCharacter_editing (s : CalculatorState) (c : string) :
  isError s = false -> hasCalculated s = false ->
  (c =? "Error")%string = false ->
  removeLastCharacter (set_currentInput c s)
  = set_currentInput
      (if (String.length c <=? 1)%nat
          || ((String.length c =? 2)%nat && startsWith "-" c)
       then "0"
       else if (slice_0_m1 c =? "-")%string then "0" else slice_0_m1 c) s.
Proof.
  intros Hie Hhc Hc. unfold removeLastCharacter, checkErrorState.
  cbn [set_currentInput isError currentInput hasCalculated].
  rewrite Hie, Hc, Hhc. cbn [orb].
  destruct (_ || _); [reflexivity|].
  now destruct (slice_0_m1 c =? "-")%string.
Qed.

(** X9: in a reachable state where a number is being typed, Backspace undoes
    the digit just typed (unless the input was ["-0"], which a digit
    replaces), and undoes the decimal point just added. *)
Theorem backspace_undoes_typing (s : CalculatorState) :
  reachable s -> editing s ->
  (forall d, currentInput s <> "-0" ->
     removeLastCharacter (appendDigit (digitKey d) s) = s) /\
  (includes "." (currentInput s) = false ->
     removeLastCharacter (addDecimalPoint s) = s).
Proof.
  intros Hr [He Hhc]. apply reachable_shape in Hr.
  destruct (checkErrorState_false s He) as [Hie Hne].
  assert (Hc : entered_number (currentInput s) = true).
  { destruct Hr as [hc | f o c Hc Hp | a b op c Hc]; try discriminate.
    exact Hc. }
  split.
  - intros d Hm0. destruct (digitKey_digit d) as (x & Hx & Hdx).
    unfold appendDigit, resetStateForNewInput. rewrite He, Hhc. cbn [orb].
    destruct (String.eqb_spec (currentInput s) "0") as [E0|N0].
    + rewrite removeLastCharacter_editing; try assumption.
      * rewrite Hx. cbn. rewrite <- E0. apply set_currentInput_same.
      * rewrite Hx. apply String.eqb_neq. intros E. inversion E.
    + apply String.eqb_neq in Hm0. rewrite Hm0, Hx.
      rewrite removeLastCharacter_editing; try assumption.
      * rewrite backspace_text_app by exact Hc. apply set_currentInput_same.
      * apply app_last_not_error, digit_not_r, Hdx.
  - intros Hi. unfold addDecimalPoint, resetStateForNewInput.
    rewrite He, Hhc. cbn [orb]. rewrite Hi. cbn [negb].
    rewrite removeLastCharacter_editing; try assumption.
    + rewrite backspace_text_app by exact Hc. apply set_currentInput_same.
    + apply app_point_not_error.
Qed.

Lemma backspace_undoes_typing_witness :
  let s := run [Press D1; Press D2; Sign] in
  removeLastCharacter (appendDigit (digitKey D7) s) = s /\
  removeLastCharacter (addDecimalPoint s) = s.
Proof.
  pose proof (backspace_undoes_typing (run [Press D1; Press D2; Sign])
                (reachable_run _) (conj eq_refl eq_refl)) as [H1 H2].
  split; [apply H1; discriminate | apply H2; reflexivity].
Defined.

Lemma slice_0_m1_length (a : ascii) (r : string) :
  String.length (slice_0_m1 (String a r)) = String.length r.
Proof.
  revert a. induction r as [|b r IH]; intros a; [reflexivity|].
  rewrite slice_0_m1_cons. cbn [String.length]. now rewrite IH.
Qed.

Lemma backspace_at_zero (n : nat) (s : CalculatorState) :
  isError s = false -> hasCalculated s = false ->
  Nat.iter n removeLastCharacter (set_currentInput "0" s)
  = set_currentInput "0" s.
Proof.
  intros Hie Hhc. induction n as [|n IH]; [reflexivity|].
  rewrite Nat.iter_succ, IH.
  now rewrite removeLastCharacter_editing.
Qed.

Lemma backspace_to_zero (n : nat) (s : CalculatorState) (c : string) :
  isError s = false -> hasCalculated s = false ->
  entered_number c = true -> (String.length c <= n)%nat ->
  Nat.iter n removeLastCharacter (set_currentInput c s)
  = set_currentInput "0" s.
Proof.
  intros Hie Hhc. revert c.
  induction n as [|n IH]; intros c Hc Hl.
  - destruct c; [discriminate | simpl in Hl; lia].
  - rewrite Nat.iter_succ_r.
    rewrite removeLastCharacter_editing
      by (try assumption; now apply entered_number_not_error).
    pose proof (entered_number_backspace c Hc) as Hb.
    destruct (_ || _) eqn:E1; [now apply backspace_at_zero|].
    destruct (slice_0_m1 c =? "-")%string; [now apply backspace_at_zero|].
    apply IH; [exact Hb|].
    destruct c as [|x r]; [discriminate|].
    rewrite slice_0_m1_length. simpl in Hl. lia.
Qed.

(** X10: in a reachable state where a number is being typed, pressing
    Backspace as many times as the input has characters leaves ["0"] and
    touches no other field. *)
Theorem backspace_clears_entry (s : CalculatorState) :
  reachable s -> editing s ->
  Nat.iter (String.length (currentInput s)) removeLastCharacter s
  = set_currentInput "0" s.
Proof.
  intros Hr [He Hhc]. apply reachable_shape in Hr.
  destruct (checkErrorState_false s He) as [Hie Hne].
  assert (Hc : entered_number (currentInput s) = true).
  { destruct Hr as [hc | f o c Hc Hp | a b op c Hc]; try discriminate.
    exact Hc. }
  rewrite <- (set_currentInput_same s) at 2.
  now apply backspace_to_zero.
Qed.

Lemma backspace_clears_entry_witness :
  let s := run [Press D1; Operator Plus; Press D2; DecimalPoint; Press D5;
                Sign] in
  Nat.iter 4 removeLastCharacter s = set_currentInput "0" s.
Proof.
  exact (backspace_clears_entry
           (run [Press D1; Operator Plus; Press D2; DecimalPoint; Press D5;
                 Sign])
           (reachable_run _) (conj eq_refl eq_refl)).
Defined.

(** ** What the page shows *)

(** X11: in every reachable state the expression line shows the formatted
    first operand and the operator when they are set and is empty
    otherwise; the second operand is never shown; the result line is
    [currentInput] and it carries the error style exactly when [isError] is
    set. *)
Theorem display_projection (s : CalculatorState) :
  reachable s ->
  updateDisplay s
  = {| expression :=
         match firstOperand s, operator s with
         | Some a, Some o => formatDisplayNumber a ++ " " ++ o
         | _, _ => ""
         end;
       result := currentInput s;
       errorClass := isError s |}.
Proof.
  intros Hr. apply reachable_shape in Hr.
  destruct Hr as [hc | f o c Hc Hp | a b op c Hc]; unfold updateDisplay;
    cbn [firstOperand secondOperand operator currentInput hasCalculated
         isError].
  - reflexivity.
  - rewrite (entered_number_not_error c Hc).
    destruct f as [a|], o as [k|]; simpl in Hp; try contradiction.
    + destruct Hp as [op ->]. now destruct op.
    + reflexivity.
  - rewrite (result_text_not_error c Hc). now destruct op.
Qed.

Lemma display_projection_witness :
  expression (updateDisplay (run [Press D1; Press D2; Operator Times;
                                  Press D3]))
  = "12 *".
Proof.
  rewrite (display_projection _ (reachable_run _)). reflexivity.
Defined.

(** ** The number read from the input *)

Lemma entered_number_read (s : CalculatorState) :
  entered_number (currentInput s) = true ->
  exists u, unsigned_number u = true /\ head_ok u = true /\
    ((currentInput s = u /\
      getCurrentInputAsNumber s = parse_unsigned false u) \/
     (currentInput s = String "-" u /\
      getCurrentInputAsNumber s = parse_unsigned true u)).
Proof.
  intros H. destruct (entered_number_signed _ H) as (u & Hh & Hu & Hc).
  exists u. split; [exact Hu|]. split; [exact Hh|].
  destruct u as [|a r]; [discriminate|].
  assert (Ha : is_digit a = true)
    by (cbn [unsigned_number] in Hu; now apply andb_prop in Hu).
  unfold getCurrentInputAsNumber.
  destruct Hc as [Hc | Hc]; [left | right]; (split; [exact Hc|]); rewrite Hc.
  - replace ((String a r =? ".")%string || (String a r =? "-.")%string)
      with false.
    + now apply Number_unsigned.
    + symmetry. apply orb_false_intro; apply String.eqb_neq; intros E;
        inversion E; subst a; discriminate.
  - replace ((String "-" (String a r) =? ".")%string
             || (String "-" (String a r) =? "-.")%string) with false.
    + now apply Number_negative.
    + symmetry. apply orb_false_intro; apply String.eqb_neq; intros E;
        inversion E; subst a; discriminate.
Qed.

Lemma editing_entered (s : CalculatorState) :
  reachable s -> editing s -> entered_number (currentInput s) = true.
Proof.
  intros Hr [He Hhc]. apply reachable_shape in Hr.
  destruct Hr as [hc | f o c Hc Hp | a b op c Hc]; try discriminate.
  exact Hc.
Qed.

(** X12: while a number is being typed (reachable state, not in error, not
    post-equals), the number read from the input is never NaN. *)
Theorem typed_input_not_nan (s : CalculatorState) :
  reachable s -> editing s -> getCurrentInputAsNumber s <> NaN.
Proof.
  intros Hr He.
  destruct (entered_number_read s (editing_entered s Hr He))
    as (u & Hu & _ & [[_ ->] | [_ ->]]); now apply parse_unsigned_not_nan.
Qed.

Lemma typed_input_not_nan_witness :
  getCurrentInputAsNumber (run [Press D0; DecimalPoint; Sign]) <> NaN.
Proof.
  exact (typed_input_not_nan (run [Press D0; DecimalPoint; Sign])
           (reachable_run _) (conj eq_refl eq_refl)).
Defined.

(** X13: while a number is being typed, a sign toggle that changes the input
    (it is neither ["0"] nor ["0."]) negates the number read from it. *)
Theorem toggleSign_negates (s : CalculatorState) :
  reachable s -> editing s ->
  currentInput s <> "0" -> currentInput s <> "0." ->
  getCurrentInputAsNumber (toggleSign s)
  = SFopp (getCurrentInputAsNumber s).
Proof.
  intros Hr He H0 H0p. pose proof (editing_entered s Hr He) as Hc.
  destruct He as [He Hhc].
  destruct (checkErrorState_false s He) as [Hie _].
  destruct (entered_number_read s Hc) as (u & Hu & Hh & [[E R] | [E R]]).
  - rewrite (toggleSign_unsigned s u Hie Hh E) by congruence.
    rewrite R.
    assert (Hc' : entered_number
                    (currentInput (set_currentInput (String "-" u) s)) = true).
    { cbn [set_currentInput currentInput].
      unfold entered_number, signed. now rewrite Ascii.eqb_refl. }
    destruct (entered_number_read _ Hc')
      as (u' & _ & Hh' & [[E' R'] | [E' R']]);
      cbn [set_currentInput currentInput] in E'.
    + subst u'. discriminate Hh'.
    + inversion E'. subst u'. rewrite R'. apply parse_unsigned_opp.
  - rewrite (toggleSign_signed s u Hie E). rewrite R.
    assert (Hc' : entered_number (currentInput (set_currentInput u s)) = true).
    { cbn [set_currentInput currentInput]. now apply unsigned_number_entered. }
    destruct (entered_number_read _ Hc')
      as (u' & _ & Hh' & [[E' R'] | [E' R']]);
      cbn [set_currentInput currentInput] in E'.
    + subst u'. rewrite R', parse_unsigned_opp. now rewrite SFopp_involutive.
    + subst u. discriminate Hh.
Qed.

Lemma toggleSign_negates_witness :
  let s := run [Press D4; DecimalPoint; Press D5] in
  getCurrentInputAsNumber (toggleSign s) = SFopp (getCurrentInputAsNumber s).
Proof.
  apply (toggleSign_negates (run [Press D4; DecimalPoint; Press D5])
           (reachable_run _) (conj eq_refl eq_refl)); discriminate.
Defined.

(** ** Changing one's mind about the operator *)

(** X14: in every reachable state, pressing a second operator key right after
    a first one gives the state that pressing the second alone gives: of
    consecutive operator keys only the last counts. *)
Theorem operator_replaced (s : CalculatorState) (o1 o2 : Op) :
  reachable s ->
  selectOperator (opKey o2) (selectOperator (opKey o1) s)
  = selectOperator (opKey o2) s.
Proof.
  intros Hr. apply reachable_shape in Hr.
  destruct Hr as [hc | f o c Hc Hp | a b op c Hc].
  - reflexivity.
  - pose proof (entered_number_not_error c Hc) as Hne.
    destruct f as [a|], o as [k|]; simpl in Hp; try contradiction.
    + destruct Hp as [op ->].
      unfold selectOperator at 2 3. unfold checkErrorState.
      cbn [isError currentInput hasCalculated firstOperand operator orb].
      rewrite Hne.
      destruct (opKey_truthy op) as (x & r & ->).
      destruct (c =? "0")%string eqn:Ec.
      * apply String.eqb_eq in Ec. subst c. cbn [negb].
        now destruct o1, o2.
      * cbn [negb]. destruct (isFinite _); [now destruct o1, o2 | reflexivity].
    + unfold selectOperator at 2 3. unfold checkErrorState.
      cbn [isError currentInput hasCalculated firstOperand operator orb].
      rewrite Hne. now destruct o1, o2.
  - pose proof (result_text_not_error c Hc) as Hne.
    unfold selectOperator at 2 3. unfold checkErrorState.
    cbn [isError currentInput hasCalculated firstOperand operator orb].
    rewrite Hne.
    destruct (opKey_truthy op) as (x & r & ->).
    destruct (c =? "0")%string eqn:Ec.
    + apply String.eqb_eq in Ec. subst c. cbn [negb].
      now destruct o1, o2.
    + cbn [negb]. destruct (isFinite _); [now destruct o1, o2 | reflexivity].
Qed.

Lemma operator_replaced_witness :
  let s := run [Press D6; Operator Plus; Press D2] in
  selectOperator "*" (selectOperator "-" s) = selectOperator "*" s.
Proof.
  exact (operator_replaced (run [Press D6; Operator Plus; Press D2])
           Minus Times (reachable_run _)).
Defined.

(** ** Starting afresh after a result or an error *)

Lemma resetStateForNewInput_fresh (s : CalculatorState) :
  checkErrorState s = true \/ hasCalculated s = true ->
  resetStateForNewInput s = clearCalculator calculatorState.
Proof.
  intros H. unfold resetStateForNewInput.
  destruct H as [-> | ->]; [reflexivity|].
  now rewrite orb_true_r.
Qed.

Lemma resetStateForNewInput_initial :
  resetStateForNewInput (clearCalculator calculatorState)
  = clearCalculator calculatorState.
Proof. reflexivity. Qed.

(** X15: after a result or an error, a digit key or the decimal point begins
    a new calculation: whatever is pressed from there on leads to the state
    the same keys give on a freshly cleared calculator. *)
Theorem typing_starts_afresh
  (s : CalculatorState) (c : Command) (cs : list Command) :
  checkErrorState s = true \/ hasCalculated s = true ->
  c = DecimalPoint \/ (exists d, c = Press d) ->
  runFrom s (c :: cs) = run (c :: cs).
Proof.
  intros Hs Hc. unfold run, runFrom. cbn [fold_left]. f_equal.
  destruct Hc as [-> | [d ->]]; cbn [dispatch].
  - unfold addDecimalPoint.
    now rewrite (resetStateForNewInput_fresh s Hs),
      resetStateForNewInput_initial.
  - unfold appendDigit.
    now rewrite (resetStateForNewInput_fresh s Hs),
      resetStateForNewInput_initial.
Qed.

Lemma typing_starts_afresh_witness :
  runFrom (run [Press D1; Operator Divide; Press D0; Equals])
    [Press D7; Operator Plus; Press D1; Equals]
  = run [Press D7; Operator Plus; Press D1; Equals].
Proof.
  apply typing_starts_afresh; [left; reflexivity | right; now exists D7].
Defined.

(** ** Invariants of the state *)

(** X16: in every reachable state the operator and the first operand are set
    together, and the second operand is set exactly in the state after
    Equals (with no error), where operator and first operand are set too. *)
Theorem state_invariants (s : CalculatorState) :
  reachable s ->
  (operator s = None <-> firstOperand s = None) /\
  (secondOperand s <> None
   <-> hasCalculated s = true /\ isError s = false) /\
  (secondOperand s <> None -> operator s <> None).
Proof.
  intros Hr. apply reachable_shape in Hr.
  destruct Hr as [hc | f o c Hc Hp | a b op c Hc];
    cbn [firstOperand secondOperand operator hasCalculated isError].
  - repeat split; try easy; intros [_ H]; discriminate.
  - destruct f as [a|], o as [k|]; simpl in Hp; try contradiction;
      repeat split; try easy; intros [H _]; discriminate.
  - repeat split; easy.
Qed.

Lemma state_invariants_witness :
  secondOperand (run [Press D2; Operator Times; Press D3; Equals]) <> None.
Proof.
  apply (state_invariants _ (reachable_run _)). split; reflexivity.
Defined.
